(** * Shopkeeper: inventory, stock adjustment, order building and commit

    Shallow embedding of [src/src/domain.rs] and [src/src/ui.rs] (the
    module-structured revision; [src/src/main.rs] carries the same
    operations in one file).

    Integer conventions.  Rust [u32], [i32], [u64] and [i64] values are
    modelled as [Z].  Rust arithmetic operators ([+], [+=], [*], unary
    [-]) are modelled with the overflow check of the default (debug)
    build profile: an overflow is a panic, written [None].  [as] casts
    never panic and are written out as the two's-complement truncation
    they perform.  Rust [f64] values are modelled exactly as dyadic
    rationals rounded to 53 significant bits (IEEE 754 binary64,
    round-to-nearest-even). *)

From Stdlib Require Import ZArith Lia String Ascii.
From stdpp Require Import base gmap list strings sorting.

Open Scope Z_scope.

(* ------------------------------------------------------------------ *)
(** ** Machine integers *)

Definition u32_max : Z := 2 ^ 32 - 1.
Definition u64_max : Z := 2 ^ 64 - 1.
Definition i32_min : Z := - 2 ^ 31.
Definition i32_max : Z := 2 ^ 31 - 1.

Definition is_u32 (x : Z) : Prop := 0 <= x <= u32_max.

(** [a + b], [a * b] on [u32] / [u64] in the debug profile. *)
Definition u32_add (a b : Z) : option Z :=
  if a + b <=? u32_max then Some (a + b) else None.
Definition u64_add (a b : Z) : option Z :=
  if a + b <=? u64_max then Some (a + b) else None.
Definition u64_mul (a b : Z) : option Z :=
  if a * b <=? u64_max then Some (a * b) else None.
Definition u32_mul (a b : Z) : option Z :=
  if a * b <=? u32_max then Some (a * b) else None.

(** [x as u32] from any integer type: keep the low 32 bits. *)
Definition as_u32 (x : Z) : Z := x mod 2 ^ 32.

(** [x as i32] from [u32]: reinterpret the 32 bits as two's complement. *)
Definition u32_as_i32 (x : Z) : Z :=
  if x <=? i32_max then x else x - 2 ^ 32.

(** unary [-x] on [i32]: panics on [i32::MIN]. *)
Definition i32_neg (x : Z) : option Z :=
  if x =? i32_min then None else Some (- x).

(** [u64::try_into::<u32>().expect(..)]. *)
Definition u64_try_into_u32 (x : Z) : option Z :=
  if x <=? u32_max then Some x else None.

(** Decimal rendering of an unsigned integer, as [{}] formats it. *)
Fixpoint fmt_digits (fuel : nat) (n : Z) (acc : string) : string :=
  match fuel with
  | O => acc
  | S fuel' =>
      let acc' := String (ascii_of_nat (48 + Z.to_nat (n mod 10))) acc in
      if n <? 10 then acc' else fmt_digits fuel' (n / 10) acc'
  end.

Definition fmt_uint (n : Z) : string := fmt_digits 20 n EmptyString.

(** Rust's [Result]. *)
Inductive result (A E : Type) : Type :=
  | Ok (a : A)
  | Err (e : E).
Arguments Ok {A E} a.
Arguments Err {A E} e.

Definition is_err {A E} (r : result A E) : bool :=
  match r with Ok _ => false | Err _ => true end.

(* ------------------------------------------------------------------ *)
(** ** Data model ([domain.rs]) *)

(** [Cents(u32)] and [Grams(u32)] are newtypes over [u32]. *)
Abbreviation Cents := Z (only parsing).
Abbreviation Grams := Z (only parsing).

Module Item.
Record t := mk {
  name : string;
  id : Z;
  cost : Cents;
  weight : Grams
}.
End Item.

Module OrderLine.
Record t := mk {
  item_id : Z;
  qty : Z
}.
End OrderLine.

Module Order.
Record t := mk {
  id : Z;
  cost : Cents;
  ship_weight : Grams;
  items : list OrderLine.t
}.
End Order.

(** [sort_unstable] / [sort_by_key] on keys that are pairwise distinct:
    the result is the unique ascending arrangement; insertion sort
    computes it. *)
Fixpoint insert_sorted {A} (key : A -> Z) (x : A) (l : list A) : list A :=
  match l with
  | [] => [x]
  | y :: l' => if key x <=? key y then x :: y :: l' else y :: insert_sorted key x l'
  end.

Fixpoint sort_by_key {A} (key : A -> Z) (l : list A) : list A :=
  match l with
  | [] => []
  | x :: l' => insert_sorted key x (sort_by_key key l')
  end.

Module Store.
Record t := mk {
  inventory : gmap Z (Item.t * Z);
  orders : list Order.t;
  next_item_id : Z;
  next_order_id : Z
}.

Definition new : t := mk ∅ [] 1 1.

Definition set_inventory (s : t) (inv : gmap Z (Item.t * Z)) : t :=
  mk inv (orders s) (next_item_id s) (next_order_id s).


(** [self.inventory.keys().copied().collect()] then [sort_unstable]:
    the hash map's iteration order is the order of [map_to_list]. *)
Definition inventory_ids_sorted (s : t) : list Z :=
  sort_by_key (fun x => x) (map fst (map_to_list (inventory s))).

Definition inventory_get (s : t) (item_id : Z) : option (Item.t * Z) :=
  inventory s !! item_id.

Definition stock (s : t) (item : Item.t) (quantity : Z) : t :=
  set_inventory s (<[Item.id item := (item, quantity)]> (inventory s)).

(** [stock_new]: the item is stored, then [self.next_item_id += 1]
    (a panic when the counter is [u32::MAX]). *)
Definition stock_new (s : t) (name : string) (cost : Cents) (weight : Grams)
    (quantity : Z) : option (Z * t) :=
  let id := next_item_id s in
  let item := Item.mk name id cost weight in
  let s1 := stock s item quantity in
  match u32_add (next_item_id s1) 1 with
  | None => None
  | Some n => Some (id, mk (inventory s1) (orders s1) n (next_order_id s1))
  end.

(** [adjust_stock(&mut self, item_id: u32, qty_change: i32)
    -> Result<u32, String>]: the result paired with the store after
    the call. *)
Definition adjust_stock (s : t) (item_id qty_change : Z)
    : result Z string * t :=
  match inventory s !! item_id with
  | None => (Err ("Unknown id: " ++ fmt_uint item_id)%string, s)
  | Some (item, qty) =>
      let new_qty := qty + qty_change in
      if new_qty <? 0
      then (Err ("Not enough stock (ID: " ++ fmt_uint item_id ++ ")")%string, s)
      else
        let q := as_u32 new_qty in
        (Ok q, set_inventory s (<[item_id := (item, q)]> (inventory s)))
  end.

(** The loop of [commit_order]: [order_cost += cost * qty] and
    [order_grams += weight * qty] on [u64] accumulators; a missing
    item is the panic of [expect("Line item not found")]. *)
Fixpoint sum_lines (inv : gmap Z (Item.t * Z)) (lines : list OrderLine.t)
    (order_cost order_grams : Z) : option (Z * Z) :=
  match lines with
  | [] => Some (order_cost, order_grams)
  | l :: rest =>
      match inv !! OrderLine.item_id l with
      | None => None
      | Some (item, _avail) =>
          let qty_u64 := OrderLine.qty l in
          match u64_mul (Item.cost item) qty_u64 with
          | None => None
          | Some c =>
              match u64_add order_cost c with
              | None => None
              | Some order_cost' =>
                  match u64_mul (Item.weight item) qty_u64 with
                  | None => None
                  | Some w =>
                      match u64_add order_grams w with
                      | None => None
                      | Some order_grams' => sum_lines inv rest order_cost' order_grams'
                      end
                  end
              end
          end
      end
  end.

Definition commit_order (s : t) (lines : list OrderLine.t) : option (Order.t * t) :=
  match sum_lines (inventory s) lines 0 0 with
  | None => None
  | Some (order_cost, order_grams) =>
      match u64_try_into_u32 order_cost, u64_try_into_u32 order_grams with
      | Some cost_u32, Some grams_u32 =>
          let new_order := Order.mk (next_order_id s) cost_u32 grams_u32 lines in
          match u32_add (next_order_id s) 1 with
          | None => None
          | Some n => Some (new_order, mk (inventory s) (orders s) (next_item_id s) n)
          end
      | _, _ => None
      end
  end.

Definition push_order (s : t) (order : Order.t) : t :=
  mk (inventory s) (orders s ++ [order]) (next_item_id s) (next_order_id s).
End Store.

(* ------------------------------------------------------------------ *)
(** ** Terminal input ([ui.rs]: [read_str], [read_u32], [retry_read_u32])

    The session consumes the operator's lines, already trimmed by
    [read_str].  [s.parse::<usize>()] and [s.parse::<u32>()] accept an
    optional leading ['+'] followed by at least one ASCII digit, and
    reject values above the type's maximum. *)

Fixpoint parse_digits (cs : list ascii) (acc : Z) : option Z :=
  match cs with
  | [] => Some acc
  | c :: cs' =>
      let d := Z.of_nat (nat_of_ascii c) - 48 in
      if (0 <=? d) && (d <=? 9) then parse_digits cs' (acc * 10 + d) else None
  end.

Definition parse_uint (max : Z) (s : string) : option Z :=
  let cs := list_ascii_of_string s in
  let cs' := match cs with
             | c :: r => if Ascii.eqb c "+"%char then r else cs
             | [] => []
             end in
  match cs' with
  | [] => None
  | _ =>
      match parse_digits cs' 0 with
      | Some v => if v <=? max then Some v else None
      | None => None
      end
  end.

Definition usize_max : Z := u64_max.
Definition parse_usize (s : string) : option Z := parse_uint usize_max s.
Definition parse_u32 (s : string) : option Z := parse_uint u32_max s.

(** [retry_read_u32]: re-prompts until a line parses; [None] when the
    input ends before that (the real loop keeps waiting). *)
Fixpoint retry_read_u32 (input : list string) : option (Z * list string) :=
  match input with
  | [] => None
  | line :: rest =>
      match parse_u32 line with
      | Some n => Some (n, rest)
      | None => retry_read_u32 rest
      end
  end.

(* ------------------------------------------------------------------ *)
(** ** The order builder ([ui.rs], [build_order])

    One iteration of the [loop] is [step]; it reports what happened as
    an [event], which is how the session's observable behaviour (the
    diagnostics it prints and the value it returns) is recorded. *)

Record session := mk_session {
  store : Store.t;
  order_qty : gmap Z Z
}.

Inductive event :=
  | EvFinishEmpty                       (* "Unable to complete order, ..." *)
  | EvFinalized (lines : list OrderLine.t)  (* return Ok(Some(lines)) *)
  | EvCancelled                         (* return Ok(None) *)
  | EvInvalidCmd                        (* "Enter a row number, 'f', or 'q'." *)
  | EvRowOutOfRange (row : Z)           (* "Row out of range." *)
  | EvSelected (item_id qty : Z)        (* adjust_stock succeeded *)
  | EvAdjustFailed (item_id qty : Z) (msg : string)  (* eprintln!("{msg}") *)
  | EvAwaitInput                        (* input exhausted: still waiting *)
  | EvPanic.                            (* arithmetic overflow panic *)

Definition terminal (ev : event) : bool :=
  match ev with
  | EvFinalized _ | EvCancelled | EvAwaitInput | EvPanic => true
  | _ => false
  end.

(** ["f"]: [order_qty.into_iter().map(..).collect()] then
    [lines.sort_by_key(|l| l.item_id)]. *)
Definition finalize (order_qty : gmap Z Z) : list OrderLine.t :=
  sort_by_key OrderLine.item_id
    (map (fun kv => OrderLine.mk kv.1 kv.2) (map_to_list order_qty)).

(** ["q"]: [let _ = store.adjust_stock( *item_id, *qty as i32)] for every
    entry; a failed restore is ignored. *)
Definition restore (s : Store.t) (order_qty : gmap Z Z) : Store.t :=
  foldl (fun s kv => snd (Store.adjust_stock s kv.1 (u32_as_i32 kv.2)))
    s (map_to_list order_qty).

Definition step (sess : session) (input : list string)
    : event * session * list string :=
  let s := store sess in
  let oq := order_qty sess in
  match input with
  | [] => (EvAwaitInput, sess, [])
  | cmd :: rest =>
      let ids := Store.inventory_ids_sorted s in
      if String.eqb cmd "f" then
        if decide (oq = ∅) then (EvFinishEmpty, sess, rest)
        else (EvFinalized (finalize oq), sess, rest)
      else if String.eqb cmd "q" then
        (EvCancelled, mk_session (restore s oq) oq, rest)
      else
        match parse_usize cmd with
        | None => (EvInvalidCmd, sess, rest)
        | Some row =>
            if Z.of_nat (length ids) <=? row then (EvRowOutOfRange row, sess, rest)
            else
              let item_id := nth (Z.to_nat row) ids 0 in
              match retry_read_u32 rest with
              | None => (EvAwaitInput, sess, [])
              | Some (qty, rest') =>
                  match i32_neg (u32_as_i32 qty) with
                  | None => (EvPanic, sess, rest')
                  | Some delta =>
                      match Store.adjust_stock s item_id delta with
                      | (Ok _new_avail, s') =>
                          match u32_add (default 0 (oq !! item_id)) qty with
                          | None => (EvPanic, sess, rest')
                          | Some v =>
                              (EvSelected item_id qty,
                               mk_session s' (<[item_id := v]> oq), rest')
                          end
                      | (Err msg, _) => (EvAdjustFailed item_id qty msg, sess, rest')
                      end
                  end
              end
        end
  end.

Fixpoint run (fuel : nat) (sess : session) (input : list string)
    : list event * session :=
  match fuel with
  | O => ([], sess)
  | S fuel' =>
      let '(ev, sess', rest) := step sess input in
      if terminal ev then ([ev], sess')
      else let '(evs, fin) := run fuel' sess' rest in (ev :: evs, fin)
  end.

(** Every non-terminal iteration consumes at least one line, so
    [length input + 1] iterations reach a terminal event. *)
Definition build_order (s : Store.t) (input : list string)
    : list event * Store.t :=
  let '(evs, sess) := run (S (length input)) (mk_session s ∅) input in
  (evs, store sess).

(* ------------------------------------------------------------------ *)
(** ** The store's public operations, in any order

    A call that panics, or an order-building session that is still
    waiting for input, is [None]: the program does not get past it. *)

Inductive store_op :=
  | OpStock (item : Item.t) (quantity : Z)
  | OpStockNew (name : string) (cost : Cents) (weight : Grams) (quantity : Z)
  | OpAdjustStock (item_id qty_change : Z)
  | OpCommitOrder (lines : list OrderLine.t)
  | OpPushOrder (order : Order.t)
  | OpBuildOrder (input : list string).

Inductive op_result :=
  | RUnit
  | RItemId (id : Z)
  | RAdjust (r : result Z string)
  | ROrder (o : Order.t)
  | RSession (evs : list event).

Definition session_finished (evs : list event) : bool :=
  match last evs with
  | Some (EvFinalized _) | Some EvCancelled => true
  | _ => false
  end.

Definition exec_op (s : Store.t) (op : store_op) : option (op_result * Store.t) :=
  match op with
  | OpStock item quantity => Some (RUnit, Store.stock s item quantity)
  | OpStockNew name cost weight quantity =>
      match Store.stock_new s name cost weight quantity with
      | Some (id, s') => Some (RItemId id, s')
      | None => None
      end
  | OpAdjustStock item_id qty_change =>
      let '(r, s') := Store.adjust_stock s item_id qty_change in Some (RAdjust r, s')
  | OpCommitOrder lines =>
      match Store.commit_order s lines with
      | Some (o, s') => Some (ROrder o, s')
      | None => None
      end
  | OpPushOrder order => Some (RUnit, Store.push_order s order)
  | OpBuildOrder input =>
      let '(evs, s') := build_order s input in
      if session_finished evs then Some (RSession evs, s') else None
  end.

Fixpoint run_ops (s : Store.t) (ops : list store_op) : option (list op_result * Store.t) :=
  match ops with
  | [] => Some ([], s)
  | op :: ops' =>
      match exec_op s op with
      | None => None
      | Some (r, s1) =>
          match run_ops s1 ops' with
          | None => None
          | Some (rs, s2) => Some (r :: rs, s2)
          end
      end
  end.

(** The ids returned by [stock_new] and the ids of the orders returned
    by [commit_order], in call order. *)
Definition new_item_ids (rs : list op_result) : list Z :=
  omap (fun r => match r with RItemId id => Some id | _ => None end) rs.

Definition committed_order_ids (rs : list op_result) : list Z :=
  omap (fun r => match r with ROrder o => Some (Order.id o) | _ => None end) rs.

(* ------------------------------------------------------------------ *)
(** ** [f64] arithmetic of the weight display

    A finite non-negative binary64 value [mant * 2 ^ exp].  Division of
    positive values is the exact quotient rounded to nearest, ties to
    even, on 53 significant bits (the subnormal range is kept by the
    exponent floor [-1074]; the quotients computed here are far from
    overflow). *)

Record f64 := F64 { mant : Z; exp : Z }.

(** Round-to-nearest, ties-to-even, of [num / den]. *)
Definition round_ne (num den : Z) : Z :=
  let q := num / den in
  let r := num mod den in
  if 2 * r <? den then q
  else if den <? 2 * r then q + 1
  else if Z.even q then q else q + 1.

(** [num / den * 2 ^ (- e)] as a fraction of integers. *)
Definition scaled (num den e : Z) : Z * Z :=
  if e <=? 0 then (num * 2 ^ (- e), den) else (num, den * 2 ^ e).

(** The binary64 value nearest to [num / den] ([num >= 0], [den > 0]). *)
Definition round_ratio (num den : Z) : f64 :=
  let e0 := Z.log2 num - Z.log2 den - 53 in
  let '(n0, d0) := scaled num den e0 in
  let e1 := if 2 ^ 53 <=? n0 / d0 then e0 + 1 else e0 in
  let e := Z.max e1 (-1074) in
  let '(n, d) := scaled num den e in
  F64 (round_ne n d) e.

(** A decimal literal [digits * 10 ^ (- frac)], correctly rounded. *)
Definition f64_lit (digits frac : Z) : f64 := round_ratio digits (10 ^ frac).

(** [n as f64] for [n: u32]: exact. *)
Definition f64_of_u32 (n : Z) : f64 := F64 n 0.

Definition f64_div (x y : f64) : f64 :=
  round_ratio (mant x * 2 ^ Z.max (exp x - exp y) 0)
              (mant y * 2 ^ Z.max (exp y - exp x) 0).

(** [a / b] rounded up, for [b > 0]. *)
Definition ceil_ratio (a b : Z) : Z := - ((- a) / b).

(** [f64::ceil] (exact; its result is an integer). *)
Definition f64_ceil (x : f64) : f64 :=
  if 0 <=? exp x then x else F64 (ceil_ratio (mant x) (2 ^ (- exp x))) 0.

(** [x as u32] for [f64]: truncation, saturating at the bounds. *)
Definition f64_as_u32 (x : f64) : Z :=
  let t := if 0 <=? exp x then mant x * 2 ^ exp x else mant x / 2 ^ (- exp x) in
  Z.max 0 (Z.min t u32_max).

(** [impl fmt::Display for Grams]. *)
Definition Grams_fmt (grams : Grams) : string :=
  if 908 <=? grams then
    let pounds := f64_as_u32 (f64_ceil (f64_div (f64_of_u32 grams) (f64_lit 45359237 5))) in
    (fmt_uint pounds ++ "lb")%string
  else if 57 <=? grams then
    let ounces := f64_as_u32 (f64_ceil (f64_div (f64_of_u32 grams) (f64_lit 28349523125 9))) in
    (fmt_uint ounces ++ "oz")%string
  else (fmt_uint grams ++ "g")%string.

(** [impl fmt::Display for Cents]: ["{}.{:02}"]. *)
Definition Cents_fmt (cents : Cents) : string :=
  let minor := cents mod 100 in
  (fmt_uint (cents / 100) ++ "." ++ (if Z.ltb minor 10 then "0" else "") ++ fmt_uint minor)%string.

(* ------------------------------------------------------------------ *)
(** ** Receipts and item creation ([ui.rs]) *)

(** The loop of [print_receipt] over [order.items]: the printed lines,
    and [false] when it panics, on [expect("Item is missing from
    inventory")] or on the [u32] product [item.cost.as_u32() * l.qty];
    the lines printed before a panic are kept. *)
Fixpoint receipt_lines (s : Store.t) (items : list OrderLine.t) : list string * bool :=
  match items with
  | [] => ([], true)
  | l :: rest =>
      match Store.inventory_get s (OrderLine.item_id l) with
      | None => ([], false)
      | Some (item, _avail) =>
          match u32_mul (Item.cost item) (OrderLine.qty l) with
          | None => ([], false)
          | Some line_total =>
              let '(out, ok) := receipt_lines s rest in
              (("  x" ++ fmt_uint (OrderLine.qty l) ++ "  " ++ Item.name item
                ++ "  $" ++ Cents_fmt line_total)%string :: out, ok)
          end
      end
  end.

Definition print_receipt (s : Store.t) (order : Order.t) : list string * bool :=
  let '(out, ok) := receipt_lines s (Order.items order) in
  if ok
  then (out ++ [("total=$" ++ Cents_fmt (Order.cost order) ++ " ship="
                 ++ Grams_fmt (Order.ship_weight order))%string], true)
  else (out, false).

(** [create_stock]: the name line as [read_str] returns it, then three
    [retry_read_u32] reads (price, weight, quantity), then [stock_new]. *)
Inductive create_outcome :=
  | Created (s : Store.t) (rest : list string)
  | CreateAwaitInput
  | CreatePanic.

Definition create_stock (s : Store.t) (input : list string) : create_outcome :=
  match input with
  | [] => CreateAwaitInput
  | input_name :: r0 =>
      match retry_read_u32 r0 with
      | None => CreateAwaitInput
      | Some (input_cents, r1) =>
          match retry_read_u32 r1 with
          | None => CreateAwaitInput
          | Some (input_grams, r2) =>
              match retry_read_u32 r2 with
              | None => CreateAwaitInput
              | Some (input_qty, r3) =>
                  match Store.stock_new s input_name input_cents input_grams input_qty with
                  | None => CreatePanic
                  | Some (_, s') => Created s' r3
                  end
              end
          end
      end
  end.


(* ------------------------------------------------------------------ *)
(** ** The inventory table ([ui.rs], [display]) *)

(** Rust pads [{:w}] arguments to [w] characters, counted as [char]s
    of the UTF-8 text: every byte that is not a continuation byte
    ([0b10xxxxxx]) starts a character. *)
Definition utf8_continuation (c : ascii) : bool :=
  (128 <=? nat_of_ascii c)%nat && (nat_of_ascii c <? 192)%nat.

Fixpoint char_count (s : string) : nat :=
  match s with
  | EmptyString => 0
  | String c s' => (if utf8_continuation c then 0 else 1) + char_count s'
  end.

Fixpoint str_repeat (c : ascii) (n : nat) : string :=
  match n with
  | O => EmptyString
  | S n' => String c (str_repeat c n')
  end.

(** [{:w}] on a [str]: left-aligned, filled with spaces, never cut. *)
Definition pad_right (w : nat) (s : string) : string :=
  (s ++ str_repeat " " (w - char_count s))%string.

(** [{:w}] on an integer: right-aligned, filled with spaces. *)
Definition pad_left (w : nat) (s : string) : string :=
  (str_repeat " " (w - char_count s) ++ s)%string.

(** [{:0w}] on an unsigned integer: zeros before the digits. *)
Definition pad_zero (w : nat) (s : string) : string :=
  (str_repeat "0" (w - char_count s) ++ s)%string.

(** [let border: String = "-".repeat(72);] *)
Definition display_border : string := str_repeat "-" 72.

(** [" {:6} | {:40} |  {:9} | {:5}"] with "ID#", "Description",
    "Unit Cost", "Avail". *)
Definition display_header : string :=
  (" " ++ pad_right 6 "ID#" ++ " | " ++ pad_right 40 "Description" ++ " |  "
   ++ pad_right 9 "Unit Cost" ++ " | " ++ pad_right 5 "Avail")%string.

(** [" {id:06} | {:40} | ${:>9} | {qty:5}"] with [item.name] and
    [item.cost].  [Cents]'s [Display] writes its text with [write!] and
    never calls [Formatter::pad], so the width and alignment [:>9] have
    no effect on it. *)
Definition display_row (id : Z) (item : Item.t) (qty : Z) : string :=
  (" " ++ pad_zero 6 (fmt_uint id) ++ " | " ++ pad_right 40 (Item.name item)
   ++ " | $" ++ Cents_fmt (Item.cost item) ++ " | " ++ pad_left 5 (fmt_uint qty))%string.

(** The loop over [inventory_ids_sorted()]: the printed rows, and
    [false] when [expect("inventory id list out of sync")] panics. *)
Fixpoint display_rows (s : Store.t) (ids : list Z) : list string * bool :=
  match ids with
  | [] => ([], true)
  | id :: ids' =>
      match Store.inventory_get s id with
      | None => ([], false)
      | Some (item, qty) =>
          let '(out, ok) := display_rows s ids' in (display_row id item qty :: out, ok)
      end
  end.

(** The printed lines (the header [println!] prints border, header and
    border as three lines), and [false] on a panic. *)
Definition display (s : Store.t) : list string * bool :=
  let '(rows, ok) := display_rows s (Store.inventory_ids_sorted s) in
  ([display_border; display_header; display_border] ++ rows, ok).

(* ------------------------------------------------------------------ *)
(** * Proofs *)

(** Rewrites every [a <=? b] / [a <? b] decided by a hypothesis. *)
Ltac simpl_leb :=
  repeat (simpl;
    match goal with
    | H : ?a <= ?b |- context [?a <=? ?b] => rewrite (proj2 (Z.leb_le a b) H)
    | H : ?b < ?a |- context [?a <=? ?b] => rewrite (proj2 (Z.leb_gt a b) H)
    | H : ?a < ?b |- context [?a <? ?b] => rewrite (proj2 (Z.ltb_lt a b) H)
    | H : ?b <= ?a |- context [?a <? ?b] => rewrite (proj2 (Z.ltb_ge a b) H)
    end).

(** On-hand quantities are never negative. *)
Definition quantities_nonneg (s : Store.t) : Prop :=
  ∀ item_id item qty, Store.inventory s !! item_id = Some (item, qty) → 0 <= qty.

(** A sequence of [adjust_stock] calls, results discarded. *)
Definition adjust_seq (s : Store.t) (calls : list (Z * Z)) : Store.t :=
  foldl (fun s c => snd (Store.adjust_stock s c.1 c.2)) s calls.

Lemma as_u32_range x : 0 <= as_u32 x <= u32_max.
Proof.
  unfold as_u32, u32_max.
  pose proof (Z.mod_pos_bound x (2 ^ 32) ltac:(lia)). lia.
Qed.

Lemma adjust_stock_nonneg s item_id qty_change :
  quantities_nonneg s → quantities_nonneg (snd (Store.adjust_stock s item_id qty_change)).
Proof.
  unfold quantities_nonneg, Store.adjust_stock.
  intros H. destruct (Store.inventory s !! item_id) as [[item qty]|] eqn:E; simpl; [|exact H].
  destruct (qty + qty_change <? 0); simpl; [exact H|].
  intros i it q. destruct (decide (i = item_id)) as [->|Hne].
  - rewrite lookup_insert_eq. intros [= <- <-]. pose proof (as_u32_range (qty + qty_change)). lia.
  - rewrite lookup_insert_ne by congruence. apply H.
Qed.

(** C1: [adjust_stock] fails exactly for an unknown id ([UnknownItem])
    or a sum [current_qty + delta] below zero ([InsufficientStock]);
    a failed call returns the store unchanged; and starting from a
    store with non-negative quantities, every sequence of calls keeps
    every on-hand quantity non-negative. *)
Theorem adjust_stock_guard (s0 : Store.t) (calls : list (Z * Z)) :
  quantities_nonneg s0 →
  (∀ s item_id qty_change,
     (Store.inventory s !! item_id = None →
        Store.adjust_stock s item_id qty_change
        = (Err ("Unknown id: " ++ fmt_uint item_id)%string, s)) ∧
     (∀ item qty, Store.inventory s !! item_id = Some (item, qty) →
        qty + qty_change < 0 →
        Store.adjust_stock s item_id qty_change
        = (Err ("Not enough stock (ID: " ++ fmt_uint item_id ++ ")")%string, s)) ∧
     (is_err (fst (Store.adjust_stock s item_id qty_change)) = true ↔
        Store.inventory s !! item_id = None ∨
        ∃ item qty, Store.inventory s !! item_id = Some (item, qty) ∧ qty + qty_change < 0) ∧
     (is_err (fst (Store.adjust_stock s item_id qty_change)) = true →
        snd (Store.adjust_stock s item_id qty_change) = s)) ∧
  quantities_nonneg (adjust_seq s0 calls).
Proof.
  intros H0. split.
  - intros s item_id qty_change. unfold Store.adjust_stock.
    destruct (Store.inventory s !! item_id) as [[item qty]|] eqn:E.
    + split; [discriminate|]. split.
      { intros it q [= <- <-] Hlt. apply Z.ltb_lt in Hlt. by rewrite Hlt. }
      destruct (qty + qty_change <? 0) eqn:Hlt; simpl.
      * split; [|done]. split; [intros _; right; exists item, qty; split; [done|lia]|done].
      * split; [|discriminate]. split; [discriminate|].
        intros [?|(it & q & [= <- <-] & Hq)]; [discriminate|lia].
    + split; [done|]. split; [intros ? ? [=]|].
      split; [split; [intros _; by left|done]|done].
  - unfold adjust_seq. revert s0 H0. induction calls as [|c calls IH]; intros s0 H0; simpl.
    + exact H0.
    + apply IH. by apply adjust_stock_nonneg.
Qed.

(** C1, witness: a store holding 12 units, one reservation of 5 that
    succeeds and one of 20 that is refused. *)
Definition washer : Item.t := Item.mk "Flat washer" 1 8 2.
Definition store_12 : Store.t := Store.stock Store.new washer 12.

Lemma adjust_stock_guard_witness :
  quantities_nonneg (adjust_seq store_12 [(1, -5); (1, -20)]) ∧
  fst (Store.adjust_stock store_12 1 (-20))
  = Err ("Not enough stock (ID: 1)")%string.
Proof.
  split.
  - apply (adjust_stock_guard store_12 [(1, -5); (1, -20)]).
    unfold quantities_nonneg. intros i it q.
    unfold store_12, Store.stock, Store.new, Store.set_inventory; simpl.
    destruct (decide (i = 1)) as [->|Hne].
    + rewrite lookup_insert_eq. intros [= _ <-]. lia.
    + rewrite lookup_insert_ne by congruence. rewrite lookup_empty. discriminate.
  - vm_compute. reflexivity.
Defined.

(** C4 (code_bug): an item holding [u32::MAX] units restocked by one.
    [current_qty + delta = 4294967296] is non-negative, so the call
    succeeds, but [new_qty as u32] truncates it: the stored and returned
    quantity is 0.  The order builder makes this call when the operator
    reserves 4294967295 units, because [-(4294967295 as i32)] is [+1]. *)
Definition store_full : Store.t := Store.stock Store.new washer 4294967295.

Theorem adjust_stock_wraps_at_u32_max :
  fst (Store.adjust_stock store_full 1 1) = Ok 0 ∧
  Store.inventory_get (snd (Store.adjust_stock store_full 1 1)) 1 = Some (washer, 0) ∧
  (let '(evs, s') := build_order store_full ["0"; "4294967295"; "f"]%string in
   evs = [EvSelected 1 4294967295;
          EvFinalized [OrderLine.mk 1 4294967295]] ∧
   Store.inventory_get s' 1 = Some (washer, 0)).
Proof. vm_compute. repeat split. Qed.

(** C7: a successful [commit_order] leaves the inventory, the order
    history and the item-id counter as they were, and increments the
    order-id counter by exactly one. *)
Theorem commit_order_frame (s : Store.t) (lines : list OrderLine.t) (o : Order.t)
    (s' : Store.t) :
  Store.commit_order s lines = Some (o, s') →
  Store.inventory s' = Store.inventory s ∧
  Store.orders s' = Store.orders s ∧
  Store.next_item_id s' = Store.next_item_id s ∧
  Store.next_order_id s' = Store.next_order_id s + 1.
Proof.
  unfold Store.commit_order.
  destruct (Store.sum_lines _ _ _ _) as [[c g]|]; [|discriminate].
  destruct (u64_try_into_u32 c), (u64_try_into_u32 g); try discriminate.
  unfold u32_add. destruct (_ <=? u32_max); [|discriminate].
  intros [= _ <-]. simpl. repeat split.
Qed.

Definition lines_1 : list OrderLine.t := [OrderLine.mk 1 3].

Lemma commit_order_frame_witness :
  Store.inventory (snd (default (Order.mk 0 0 0 [], Store.new)
                          (Store.commit_order store_12 lines_1)))
  = Store.inventory store_12.
Proof.
  destruct (Store.commit_order store_12 lines_1) as [[o s']|] eqn:E.
  - simpl. apply (proj1 (commit_order_frame store_12 lines_1 o s' E)).
  - vm_compute in E. discriminate.
Defined.

(* ------------------------------------------------------------------ *)
(** ** The id counters across operations *)

Lemma adjust_stock_counters s item_id qty_change :
  Store.next_item_id (snd (Store.adjust_stock s item_id qty_change)) = Store.next_item_id s ∧
  Store.next_order_id (snd (Store.adjust_stock s item_id qty_change)) = Store.next_order_id s.
Proof.
  unfold Store.adjust_stock.
  destruct (Store.inventory s !! item_id) as [[item qty]|]; [|done].
  by destruct (qty + qty_change <? 0).
Qed.

Lemma restore_counters s oq :
  Store.next_item_id (restore s oq) = Store.next_item_id s ∧
  Store.next_order_id (restore s oq) = Store.next_order_id s.
Proof.
  unfold restore. generalize (map_to_list oq) as l. intros l. revert s.
  induction l as [|kv l IH]; intros s; simpl; [done|].
  destruct (IH (snd (Store.adjust_stock s kv.1 (u32_as_i32 kv.2)))) as [-> ->].
  apply adjust_stock_counters.
Qed.

Definition same_counters (s s' : Store.t) : Prop :=
  Store.next_item_id s' = Store.next_item_id s ∧
  Store.next_order_id s' = Store.next_order_id s.

Lemma step_counters sess input ev sess' rest :
  step sess input = (ev, sess', rest) → same_counters (store sess) (store sess').
Proof.
  unfold step, same_counters.
  destruct input as [|cmd rest0]; [intros [= _ <- _]; done|].
  destruct (String.eqb cmd "f").
  { destruct (decide _); intros [= _ <- _]; done. }
  destruct (String.eqb cmd "q").
  { intros [= _ <- _]. apply restore_counters. }
  destruct (parse_usize cmd) as [row|]; [|intros [= _ <- _]; done].
  destruct (_ <=? row); [intros [= _ <- _]; done|].
  destruct (retry_read_u32 rest0) as [[qty rest']|]; [|intros [= _ <- _]; done].
  destruct (i32_neg _) as [delta|]; [|intros [= _ <- _]; done].
  pose proof (adjust_stock_counters (store sess) (nth (Z.to_nat row)
    (Store.inventory_ids_sorted (store sess)) 0) delta) as Hc.
  destruct (Store.adjust_stock _ _ _) as [[v|msg] s1]; simpl in Hc.
  - destruct (u32_add _ _); intros [= _ <- _]; done.
  - intros [= _ <- _]; done.
Qed.

Lemma run_counters fuel sess input evs sess' :
  run fuel sess input = (evs, sess') → same_counters (store sess) (store sess').
Proof.
  revert sess input evs. induction fuel as [|fuel IH]; intros sess input evs; simpl.
  - intros [= _ <-]. split; done.
  - destruct (step sess input) as [[ev sess1] rest] eqn:Hs.
    apply step_counters in Hs. destruct (terminal ev).
    + intros [= _ <-]. exact Hs.
    + destruct (run fuel sess1 rest) as [evs1 fin] eqn:Hr. intros [= _ <-].
      apply IH in Hr. unfold same_counters in *. lia.
Qed.

Lemma build_order_counters s input evs s' :
  build_order s input = (evs, s') → same_counters s s'.
Proof.
  unfold build_order.
  destruct (run _ _ _) as [evs1 sess] eqn:Hr. intros [= _ <-].
  apply run_counters in Hr. exact Hr.
Qed.

Lemma seqZ_succ_nat m n :
  seqZ m (Z.of_nat (S n)) = m :: seqZ (m + 1) (Z.of_nat n).
Proof.
  rewrite seqZ_cons by lia. f_equal; f_equal; lia.
Qed.

Lemma u32_add_some a b n : u32_add a b = Some n → n = a + b.
Proof. unfold u32_add. destruct (_ <=? _); congruence. Qed.

(** What a successful [commit_order] returns and leaves behind. *)
Lemma commit_order_inv s lines o s' :
  Store.commit_order s lines = Some (o, s') →
  Order.id o = Store.next_order_id s ∧ Order.items o = lines ∧
  s' = Store.mk (Store.inventory s) (Store.orders s) (Store.next_item_id s)
                (Store.next_order_id s + 1).
Proof.
  unfold Store.commit_order.
  destruct (Store.sum_lines _ _ _ _) as [[c g]|]; [|discriminate].
  destruct (u64_try_into_u32 c), (u64_try_into_u32 g); try discriminate.
  destruct (u32_add _ 1) as [n|] eqn:En; [|discriminate]. apply u32_add_some in En.
  intros [= <- <-]. subst n. done.
Qed.


Lemma exec_op_counters s op r s1 :
  exec_op s op = Some (r, s1) →
  (match r with
   | RItemId id => id = Store.next_item_id s ∧ Store.next_item_id s1 = Store.next_item_id s + 1
   | _ => Store.next_item_id s1 = Store.next_item_id s
   end) ∧
  (match r with
   | ROrder o => Order.id o = Store.next_order_id s ∧
                 Store.next_order_id s1 = Store.next_order_id s + 1
   | _ => Store.next_order_id s1 = Store.next_order_id s
   end).
Proof.
  destruct op as [item q|name c w q|item_id d|lines|o|input]; simpl.
  - intros [= <- <-]. done.
  - unfold Store.stock_new. destruct (u32_add _ 1) as [n|] eqn:E; [|discriminate].
    apply u32_add_some in E. intros [= <- <-]. simpl in *. done.
  - pose proof (adjust_stock_counters s item_id d) as [Hi Ho].
    destruct (Store.adjust_stock s item_id d) as [res s2]. intros [= <- <-]. done.
  - destruct (Store.commit_order s lines) as [[o s2]|] eqn:E; [|discriminate].
    intros [= <- <-].
    destruct (commit_order_inv s lines o s2 E) as (Hid & _ & ->).
    simpl. done.
  - intros [= <- <-]. done.
  - destruct (build_order s input) as [evs s2] eqn:E.
    apply build_order_counters in E as [Hi Ho].
    destruct (session_finished evs); [|discriminate]. intros [= <- <-]. done.
Qed.

Lemma run_ops_counters s ops rs s' :
  run_ops s ops = Some (rs, s') →
  new_item_ids rs = seqZ (Store.next_item_id s) (Z.of_nat (length (new_item_ids rs))) ∧
  Store.next_item_id s' = Store.next_item_id s + Z.of_nat (length (new_item_ids rs)) ∧
  committed_order_ids rs
    = seqZ (Store.next_order_id s) (Z.of_nat (length (committed_order_ids rs))) ∧
  Store.next_order_id s' = Store.next_order_id s + Z.of_nat (length (committed_order_ids rs)).
Proof.
  revert s rs. induction ops as [|op ops IH]; intros s rs; simpl.
  - intros [= <- <-]. simpl. rewrite !seqZ_nil by lia. repeat split; lia.
  - destruct (exec_op s op) as [[r s1]|] eqn:E; [|discriminate].
    destruct (run_ops s1 ops) as [[rs1 s2]|] eqn:Er; [|discriminate].
    intros [= <- <-].
    apply exec_op_counters in E as [Ei Eo].
    destruct (IH s1 rs1 Er) as (Hi & Hi' & Ho & Ho').
    destruct r as [|id|res|o|evs]; simpl in *;
      repeat match goal with H : _ ∧ _ |- _ => destruct H end;
      rewrite ?seqZ_succ_nat, ?Nat2Z.inj_succ; subst.
    + split; [etransitivity; [exact Hi|]; by rewrite Ei|].
      split; [lia|]. split; [etransitivity; [exact Ho|]; by rewrite Eo|]. lia.
    + split; [f_equal; etransitivity; [exact Hi|]; by rewrite H0|].
      split; [lia|]. split; [etransitivity; [exact Ho|]; by rewrite Eo|]. lia.
    + split; [etransitivity; [exact Hi|]; by rewrite Ei|].
      split; [lia|]. split; [etransitivity; [exact Ho|]; by rewrite Eo|]. lia.
    + split; [etransitivity; [exact Hi|]; by rewrite Ei|].
      split; [lia|]. split; [f_equal; [exact H|]; etransitivity; [exact Ho|]; by rewrite H0|]. lia.
    + split; [etransitivity; [exact Hi|]; by rewrite Ei|].
      split; [lia|]. split; [etransitivity; [exact Ho|]; by rewrite Eo|]. lia.
Qed.

(** C6: along any sequence of store operations starting from
    [Store::new()], the ids returned by [stock_new] are [1, 2, ..., N]
    (distinct and strictly increasing), and each successful
    [stock_new] call stores the new item, with exactly the given name,
    cost and weight, under the returned id, paired with the given
    quantity. *)
Theorem stock_new_sequential_ids (ops : list store_op) (rs : list op_result)
    (s' : Store.t) :
  run_ops Store.new ops = Some (rs, s') →
  new_item_ids rs = seqZ 1 (Z.of_nat (length (new_item_ids rs))) ∧
  (∀ s name cost weight quantity id s1,
     Store.stock_new s name cost weight quantity = Some (id, s1) →
     Store.inventory s1 !! id = Some (Item.mk name id cost weight, quantity)).
Proof.
  intros H. split.
  - apply run_ops_counters in H as (H & _). exact H.
  - intros s name cost weight quantity id s1. unfold Store.stock_new.
    destruct (u32_add _ 1); [|discriminate]. intros [= <- <-]. simpl.
    apply lookup_insert_eq.
Qed.

Definition ops_items : list store_op :=
  [OpStockNew "36in cyl packing kit" 2299 81 12;
   OpAdjustStock 1 (-2);
   OpStockNew "Flat washer" 8 2 203;
   OpCommitOrder [OrderLine.mk 1 2];
   OpStockNew "Bearing" 3895 925 2].

Lemma stock_new_sequential_ids_witness :
  ∃ rs s', run_ops Store.new ops_items = Some (rs, s') ∧ new_item_ids rs = [1; 2; 3].
Proof.
  destruct (run_ops Store.new ops_items) as [[rs s']|] eqn:E.
  - exists rs, s'. split; [reflexivity|].
    destruct (stock_new_sequential_ids ops_items rs s' E) as [H _].
    rewrite H. vm_compute in E. injection E as <- _. reflexivity.
  - vm_compute in E. discriminate.
Defined.

(** The aggregates of [commit_order], as exact sums. *)
Fixpoint lines_sum (f : Item.t → Z) (inv : gmap Z (Item.t * Z))
    (lines : list OrderLine.t) : Z :=
  match lines with
  | [] => 0
  | l :: rest =>
      match inv !! OrderLine.item_id l with
      | Some (item, _) => f item * OrderLine.qty l
      | None => 0
      end + lines_sum f inv rest
  end.

Definition item_values_u32 (s : Store.t) : Prop :=
  ∀ item_id item qty, Store.inventory s !! item_id = Some (item, qty) →
    is_u32 (Item.cost item) ∧ is_u32 (Item.weight item).

Definition line_ok (s : Store.t) (l : OrderLine.t) : Prop :=
  is_u32 (OrderLine.qty l) ∧ is_Some (Store.inventory s !! OrderLine.item_id l).

Lemma u32_mul_le a b : is_u32 a → is_u32 b → 0 <= a * b <= u64_max.
Proof.
  unfold is_u32, u32_max, u64_max. intros Ha Hb. split; [nia|].
  assert (a * b <= (2 ^ 32 - 1) * (2 ^ 32 - 1)) by (apply Z.mul_le_mono_nonneg; lia).
  lia.
Qed.

Lemma lines_sum_nonneg f s lines :
  item_values_u32 s → Forall (line_ok s) lines →
  (∀ it, is_u32 (Item.cost it) ∧ is_u32 (Item.weight it) → is_u32 (f it)) →
  0 <= lines_sum f (Store.inventory s) lines.
Proof.
  intros Hs Hl Hf. induction Hl as [|l rest [Hq [[it a] Hin]] _ IH]; simpl; [lia|].
  rewrite Hin. pose proof (Hf it (Hs _ _ _ Hin)). pose proof (u32_mul_le _ _ H Hq). lia.
Qed.

Lemma sum_lines_spec s lines c0 g0 :
  item_values_u32 s → Forall (line_ok s) lines →
  0 <= c0 <= u64_max → 0 <= g0 <= u64_max →
  Store.sum_lines (Store.inventory s) lines c0 g0 =
  if (c0 + lines_sum Item.cost (Store.inventory s) lines <=? u64_max) &&
     (g0 + lines_sum Item.weight (Store.inventory s) lines <=? u64_max)
  then Some (c0 + lines_sum Item.cost (Store.inventory s) lines,
             g0 + lines_sum Item.weight (Store.inventory s) lines)
  else None.
Proof.
  intros Hs Hl. revert c0 g0.
  induction Hl as [|l rest [Hq [[it a] Hin]] Hrest IH]; intros c0 g0 Hc Hg; simpl.
  - rewrite !Z.add_0_r.
    destruct (Z.leb_spec c0 u64_max), (Z.leb_spec g0 u64_max); simpl; done || lia.
  - rewrite Hin. destruct (Hs _ _ _ Hin) as [Hcost Hweight].
    pose proof (u32_mul_le _ _ Hcost Hq) as Hmc.
    pose proof (u32_mul_le _ _ Hweight Hq) as Hmw.
    pose proof (lines_sum_nonneg Item.cost s rest Hs Hrest (fun it H => proj1 H)) as Hrc.
    pose proof (lines_sum_nonneg Item.weight s rest Hs Hrest (fun it H => proj2 H)) as Hrw.
    unfold u64_mul. rewrite (proj2 (Z.leb_le _ _) (proj2 Hmc)).
    unfold u64_add. destruct (Z.leb_spec (c0 + Item.cost it * OrderLine.qty l) u64_max).
    2:{ destruct (Z.leb_spec (c0 + (Item.cost it * OrderLine.qty l
           + lines_sum Item.cost (Store.inventory s) rest)) u64_max); [lia|done]. }
    rewrite (proj2 (Z.leb_le _ _) (proj2 Hmw)).
    destruct (Z.leb_spec (g0 + Item.weight it * OrderLine.qty l) u64_max).
    2:{ destruct (Z.leb_spec (g0 + (Item.weight it * OrderLine.qty l
           + lines_sum Item.weight (Store.inventory s) rest)) u64_max); [lia|].
        rewrite andb_false_r. done. }
    rewrite IH by lia. rewrite !Z.add_assoc. done.
Qed.

(** C2 (as corrected): for a line set whose items all exist (costs,
    weights and quantities being [u32] values), [commit_order] returns
    an order with the exact sums [Σ cost * qty] and [Σ weight * qty],
    carrying the current order id, and fails (panics) exactly when one
    of the two sums exceeds [u32::MAX] or the order-id counter is
    already [u32::MAX]; along any sequence of store operations starting
    from [Store::new()], the committed orders' ids are [1, 2, ..., M]. *)
Theorem commit_order_aggregates :
  (∀ (s : Store.t) (lines : list OrderLine.t),
     item_values_u32 s → Forall (line_ok s) lines →
     Store.commit_order s lines =
       let C := lines_sum Item.cost (Store.inventory s) lines in
       let W := lines_sum Item.weight (Store.inventory s) lines in
       if (C <=? u32_max) && (W <=? u32_max) && (Store.next_order_id s <? u32_max)
       then Some (Order.mk (Store.next_order_id s) C W lines,
                  Store.mk (Store.inventory s) (Store.orders s) (Store.next_item_id s)
                           (Store.next_order_id s + 1))
       else None) ∧
  (∀ ops rs s', run_ops Store.new ops = Some (rs, s') →
     committed_order_ids rs = seqZ 1 (Z.of_nat (length (committed_order_ids rs)))).
Proof.
  split.
  - intros s lines Hs Hl. unfold Store.commit_order.
    rewrite (sum_lines_spec s lines 0 0 Hs Hl) by (unfold u64_max; lia).
    rewrite !Z.add_0_l. simpl.
    pose proof (lines_sum_nonneg Item.cost s lines Hs Hl (fun it H => proj1 H)) as Hc.
    pose proof (lines_sum_nonneg Item.weight s lines Hs Hl (fun it H => proj2 H)) as Hw.
    set (C := lines_sum Item.cost (Store.inventory s) lines) in *.
    set (W := lines_sum Item.weight (Store.inventory s) lines) in *.
    assert (Hbig : u32_max < u64_max) by (unfold u32_max, u64_max; lia).
    unfold u64_try_into_u32, u32_add.
    destruct (Z.leb_spec C u32_max), (Z.leb_spec W u32_max),
             (Z.leb_spec C u64_max), (Z.leb_spec W u64_max),
             (Z.ltb_spec (Store.next_order_id s) u32_max),
             (Z.leb_spec (Store.next_order_id s + 1) u32_max);
      simpl_leb; try lia; done.
  - intros ops rs s' H. apply run_ops_counters in H as (_ & _ & H & _). exact H.
Qed.

Lemma commit_order_aggregates_witness :
  Store.commit_order store_12 lines_1
  = Some (Order.mk 1 24 6 lines_1, Store.mk (Store.inventory store_12) [] 1 2).
Proof.
  rewrite (proj1 commit_order_aggregates store_12 lines_1).
  - vm_compute. reflexivity.
  - intros i it q. unfold store_12, Store.stock, Store.set_inventory; simpl.
    destruct (decide (i = 1)) as [->|Hne].
    + rewrite lookup_insert_eq. intros [= <- _]. unfold is_u32, u32_max; simpl; lia.
    + rewrite lookup_insert_ne by congruence. rewrite lookup_empty. discriminate.
  - repeat constructor; unfold u32_max; simpl; try lia. vm_compute. eauto.
Defined.

(** C2, counterexample: after [u32::MAX - 1] commits the order-id
    counter is [u32::MAX]; a commit of one line of 3 washers (totals
    24 cents and 6 g, far below [u32::MAX]) then panics on
    [self.next_order_id += 1]. *)
Definition store_ids_exhausted : Store.t :=
  Store.mk (Store.inventory store_12) [] 2 u32_max.

Lemma commit_order_fails_on_exhausted_counter :
  lines_sum Item.cost (Store.inventory store_ids_exhausted) lines_1 = 24 ∧
  lines_sum Item.weight (Store.inventory store_ids_exhausted) lines_1 = 6 ∧
  Store.commit_order store_ids_exhausted lines_1 = None.
Proof. vm_compute. repeat split. Qed.

(* ------------------------------------------------------------------ *)
(** ** Sorting by key *)

Section SortByKey.
Context {A : Type} (key : A → Z).

Definition key_le (a b : A) : Prop := key a <= key b.
Definition key_lt (a b : A) : Prop := key a < key b.

Lemma insert_sorted_perm x l : insert_sorted key x l ≡ₚ x :: l.
Proof.
  induction l as [|y l IH]; simpl; [done|].
  destruct (key x <=? key y); [done|].
  rewrite IH. constructor.
Qed.

Lemma sort_by_key_perm l : sort_by_key key l ≡ₚ l.
Proof.
  induction l as [|x l IH]; simpl; [done|].
  rewrite insert_sorted_perm, IH. done.
Qed.

Lemma insert_sorted_sorted x l :
  Sorted key_le l → Sorted key_le (insert_sorted key x l).
Proof.
  induction 1 as [|y l Hl IH Hhd]; simpl.
  - repeat constructor.
  - destruct (Z.leb_spec (key x) (key y)).
    + constructor; [by constructor|]. constructor. unfold key_le. lia.
    + constructor; [exact IH|].
      destruct l as [|z l]; simpl.
      * constructor. unfold key_le. lia.
      * inversion Hhd; subst. destruct (key x <=? key z); constructor; unfold key_le in *; lia.
Qed.

Lemma sort_by_key_sorted l : Sorted key_le (sort_by_key key l).
Proof.
  induction l as [|x l IH]; simpl; [constructor|]. by apply insert_sorted_sorted.
Qed.

Lemma sorted_le_nodup_lt l :
  Sorted key_le l → NoDup (map key l) → Sorted key_lt l.
Proof.
  induction 1 as [|x l Hl IH Hhd]; simpl; intros Hnd; [constructor|].
  apply NoDup_cons in Hnd as [Hnin Hnd]. constructor; [by apply IH|].
  destruct Hhd as [|y l' Hxy]; constructor. unfold key_le, key_lt in *.
  assert (key x ≠ key y); [|lia].
  intros Heq. apply Hnin. rewrite Heq. simpl. by left.
Qed.

Lemma sort_by_key_strict l :
  NoDup (map key l) → Sorted key_lt (sort_by_key key l).
Proof.
  intros Hnd. apply sorted_le_nodup_lt; [apply sort_by_key_sorted|].
  assert (Hp : map key (sort_by_key key l) ≡ₚ map key l).
  { apply Permutation_map. apply sort_by_key_perm. }
  by rewrite Hp.
Qed.
End SortByKey.

Lemma map_fst_fmap {A B} (l : list (A * B)) : map fst l = l.*1.
Proof. induction l as [|x l IH]; simpl; [done|]. by rewrite IH. Qed.

(** C9: [inventory_ids_sorted] lists exactly the ids of the inventory,
    strictly ascending and without duplicates, and [inventory_get]
    finds every listed id, so the [expect] of the table printer
    ([display]) never fires. *)
Theorem inventory_ids_sorted_spec (s : Store.t) :
  Sorted Z.lt (Store.inventory_ids_sorted s) ∧
  NoDup (Store.inventory_ids_sorted s) ∧
  (∀ id, In id (Store.inventory_ids_sorted s) ↔ is_Some (Store.inventory s !! id)) ∧
  Forall (fun id => is_Some (Store.inventory_get s id)) (Store.inventory_ids_sorted s).
Proof.
  unfold Store.inventory_ids_sorted.
  assert (Hnd : NoDup (map fst (map_to_list (Store.inventory s)))).
  { rewrite map_fst_fmap. apply NoDup_fst_map_to_list. }
  assert (Hin : ∀ id, In id (sort_by_key (fun x => x) (map fst (map_to_list (Store.inventory s))))
                 ↔ is_Some (Store.inventory s !! id)).
  { intros id. rewrite <- list_elem_of_In.
    rewrite (sort_by_key_perm (fun x => x)).
    rewrite map_fst_fmap. rewrite list_elem_of_fmap. split.
    - intros [[i v] [-> Hiv]]. apply elem_of_map_to_list in Hiv. simpl. by exists v.
    - intros [v Hv]. exists (id, v). split; [done|]. by apply elem_of_map_to_list. }
  split; [|split; [|split]].
  - apply (sort_by_key_strict (fun x => x)). by rewrite map_id.
  - by rewrite (sort_by_key_perm (fun x => x)).
  - exact Hin.
  - apply Forall_forall. intros id Hid. apply list_elem_of_In in Hid.
    unfold Store.inventory_get. by apply Hin.
Qed.

(* ------------------------------------------------------------------ *)
(** ** The order builder's reservations *)

(** The reservation map after a run of events: each successful
    selection adds its quantity to the item's entry. *)
Definition apply_selections (oq : gmap Z Z) (evs : list event) : gmap Z Z :=
  foldl (fun m ev =>
           match ev with
           | EvSelected item_id qty => <[item_id := default 0 (m !! item_id) + qty]> m
           | _ => m
           end) oq evs.

Fixpoint selected_qty (evs : list event) (item_id : Z) : Z :=
  match evs with
  | [] => 0
  | EvSelected i q :: evs' =>
      (if Z.eqb i item_id then q else 0) + selected_qty evs' item_id
  | _ :: evs' => selected_qty evs' item_id
  end.

Definition selectedb (evs : list event) (item_id : Z) : bool :=
  existsb (fun ev => match ev with EvSelected i _ => Z.eqb i item_id | _ => false end) evs.

Lemma selectedb_spec evs item_id :
  selectedb evs item_id = true ↔ ∃ q, In (EvSelected item_id q) evs.
Proof.
  unfold selectedb. rewrite existsb_exists. split.
  - intros [ev [Hin Hev]]. destruct ev; try discriminate.
    apply Z.eqb_eq in Hev. subst. eauto.
  - intros [q Hin]. exists (EvSelected item_id q). split; [done|]. apply Z.eqb_refl.
Qed.

Lemma apply_selections_lookup m evs item_id :
  apply_selections m evs !! item_id =
  match m !! item_id with
  | Some v => Some (v + selected_qty evs item_id)
  | None => if selectedb evs item_id then Some (selected_qty evs item_id) else None
  end.
Proof.
  unfold apply_selections. revert m.
  induction evs as [|ev evs IH]; intros m; simpl.
  - destruct (m !! item_id); [f_equal; lia|done].
  - rewrite IH. destruct ev as [| | | | |i q| | |]; simpl; try done.
    destruct (Z.eqb_spec i item_id) as [->|Hne]; simpl.
    + rewrite lookup_insert_eq. destruct (m !! item_id); simpl; f_equal; lia.
    + rewrite lookup_insert_ne by congruence. done.
Qed.

Lemma finalize_spec oq :
  Sorted (key_lt OrderLine.item_id) (finalize oq) ∧
  (∀ item_id qty, In (OrderLine.mk item_id qty) (finalize oq) ↔ oq !! item_id = Some qty) ∧
  (oq ≠ ∅ → finalize oq ≠ []).
Proof.
  unfold finalize.
  set (l := map (fun kv : Z * Z => OrderLine.mk kv.1 kv.2) (map_to_list oq)).
  assert (Hkeys : map OrderLine.item_id l = map fst (map_to_list oq)).
  { unfold l. rewrite map_map. done. }
  split; [|split].
  - apply sort_by_key_strict. rewrite Hkeys, map_fst_fmap. apply NoDup_fst_map_to_list.
  - intros i q. rewrite <- list_elem_of_In, (sort_by_key_perm OrderLine.item_id).
    unfold l. rewrite list_elem_of_In, in_map_iff. split.
    + intros [[k v] [[= -> ->] Hin]]. apply elem_of_map_to_list. by apply list_elem_of_In.
    + intros Hq. exists (i, q). split; [done|]. apply list_elem_of_In.
      by apply elem_of_map_to_list.
  - intros Hne Hnil. apply Hne. apply map_to_list_empty_iff.
    pose proof (sort_by_key_perm OrderLine.item_id l) as Hp. rewrite Hnil in Hp.
    apply Permutation_nil in Hp. unfold l in Hp.
    destruct (map_to_list oq); [done|discriminate].
Qed.

Lemma step_order_qty sess input ev sess' rest :
  step sess input = (ev, sess', rest) →
  match ev with
  | EvFinalized lines => lines = finalize (order_qty sess) ∧ order_qty sess ≠ ∅
  | EvCancelled | EvPanic => True
  | _ => order_qty sess' = apply_selections (order_qty sess) [ev]
  end.
Proof.
  unfold step.
  destruct input as [|cmd rest0]; [intros [= <- <- _]; done|].
  destruct (String.eqb cmd "f").
  { destruct (decide _) as [He|He]; intros [= <- <- _]; done. }
  destruct (String.eqb cmd "q"); [intros [= <- _ _]; done|].
  destruct (parse_usize cmd) as [row|]; [|intros [= <- <- _]; done].
  destruct (_ <=? row); [intros [= <- <- _]; done|].
  destruct (retry_read_u32 rest0) as [[qty rest']|]; [|intros [= <- <- _]; done].
  destruct (i32_neg _) as [delta|]; [|intros [= <- _ _]; done].
  destruct (Store.adjust_stock _ _ _) as [[v|msg] s1].
  - destruct (u32_add _ _) as [n|] eqn:E; [|intros [= <- _ _]; done].
    apply u32_add_some in E. intros [= <- <- _]. simpl. by rewrite E.
  - intros [= <- <- _]; done.
Qed.

Lemma run_finalized fuel sess input evs sess' lines :
  run fuel sess input = (evs, sess') →
  last evs = Some (EvFinalized lines) →
  lines = finalize (apply_selections (order_qty sess) evs) ∧
  apply_selections (order_qty sess) evs ≠ ∅.
Proof.
  revert sess input evs sess'. induction fuel as [|fuel IH]; intros sess input evs sess'; simpl.
  - intros [= <- _]. discriminate.
  - destruct (step sess input) as [[ev sess1] rest] eqn:Hs.
    apply step_order_qty in Hs.
    destruct (terminal ev) eqn:Ht.
    + intros [= <- _] [= ->]. exact Hs.
    + destruct (run fuel sess1 rest) as [evs1 fin] eqn:Hr. intros [= <- _] Hlast.
      destruct evs1 as [|ev1 evs1].
      { simpl in Hlast. injection Hlast as ->. discriminate. }
      assert (Hl : last (ev1 :: evs1) = Some (EvFinalized lines)).
      { rewrite <- Hlast. destruct evs1; done. }
      destruct (IH sess1 rest _ _ Hr Hl) as [IH1 IH2].
      assert (Hq : order_qty sess1 = apply_selections (order_qty sess) [ev]).
      { destruct ev; try discriminate; exact Hs. }
      rewrite Hq in IH1, IH2. split; exact IH1 || exact IH2.
Qed.

(** C5 (as corrected): when the order builder ends in the Finalized
    state, the returned line set is non-empty, strictly ascending by
    item id (so one line per item), and holds a line for exactly the
    items with a successful selection, with the sum of their selected
    quantities; [finish] with an empty reservation map is refused and
    the session goes on unchanged. *)
Theorem build_order_finalized_lines (s : Store.t) (input : list string)
    (evs : list event) (s' : Store.t) (lines : list OrderLine.t) :
  build_order s input = (evs, s') →
  last evs = Some (EvFinalized lines) →
  lines ≠ [] ∧
  Sorted (key_lt OrderLine.item_id) lines ∧
  (∀ item_id qty, In (OrderLine.mk item_id qty) lines ↔
     (∃ q, In (EvSelected item_id q) evs) ∧ qty = selected_qty evs item_id) ∧
  (∀ sess rest, order_qty sess = ∅ →
     step sess ("f" :: rest)%string = (EvFinishEmpty, sess, rest)).
Proof.
  unfold build_order. destruct (run _ _ _) as [evs1 sess] eqn:Hr.
  intros [= <- _] Hlast.
  destruct (run_finalized _ _ _ _ _ _ Hr Hlast) as [-> Hne]. simpl in *.
  destruct (finalize_spec (apply_selections ∅ evs1)) as (Hs & Hin & Hnil).
  split; [by apply Hnil|]. split; [exact Hs|]. split.
  - intros i q. rewrite Hin, apply_selections_lookup, lookup_empty, <- selectedb_spec.
    destruct (selectedb evs1 i); split; intros H.
    + injection H as <-. done.
    + destruct H as [_ ->]. done.
    + discriminate.
    + destruct H as [H _]. discriminate.
  - intros sess0 rest Hempty. unfold step. simpl.
    destruct (decide (order_qty sess0 = ∅)); [done|contradiction].
Qed.

Lemma build_order_finalized_lines_witness :
  let '(evs, s') := build_order store_12 ["0"; "2"; "0"; "3"; "f"]%string in
  last evs = Some (EvFinalized [OrderLine.mk 1 5]) ∧
  [OrderLine.mk 1 5] ≠ [].
Proof.
  destruct (build_order store_12 ["0"; "2"; "0"; "3"; "f"]%string) as [evs s'] eqn:E.
  assert (Hl : last evs = Some (EvFinalized [OrderLine.mk 1 5])).
  { vm_compute in E. injection E as <- _. reflexivity. }
  split; [exact Hl|].
  exact (proj1 (build_order_finalized_lines _ _ _ _ _ E Hl)).
Defined.

(** C5, counterexample: selecting the washer with quantity 0 succeeds
    ([adjust_stock(1, 0)]), creates the reservation entry [1 -> 0], and
    [finish] then returns a line whose quantity is 0. *)
Lemma build_order_zero_quantity_line :
  fst (build_order store_12 ["0"; "0"; "f"]%string)
  = [EvSelected 1 0; EvFinalized [OrderLine.mk 1 0]].
Proof. vm_compute. reflexivity. Qed.

Definition store_big : Store.t := Store.stock Store.new washer 2147483650.

(** C3 (code_bug): a session on an item holding 2147483650 units
    reserves 1073741825 units twice (both succeed and bring the stock
    to 0), then quits.  The reservation map holds 2147483650, and the
    restore calls [adjust_stock(1, 2147483650 as i32)], i.e. with
    [-2147483646]: the call fails with "Not enough stock", the failure
    is ignored, and the stock stays at 0 instead of 2147483650. *)
Theorem build_order_quit_leaves_stock_reserved :
  Store.inventory_get store_big 1 = Some (washer, 2147483650) ∧
  let '(evs, s') := build_order store_big
                      ["0"; "1073741825"; "0"; "1073741825"; "q"]%string in
  evs = [EvSelected 1 1073741825; EvSelected 1 1073741825; EvCancelled] ∧
  Store.inventory_get s' 1 = Some (washer, 0).
Proof. vm_compute. repeat split. Qed.

Lemma parse_digits_nonneg cs acc v :
  0 <= acc → parse_digits cs acc = Some v → 0 <= v.
Proof.
  revert acc. induction cs as [|c cs IH]; intros acc Hacc; simpl.
  - intros [= <-]. exact Hacc.
  - destruct (Z.leb_spec 0 (Z.of_nat (nat_of_ascii c) - 48)); simpl; [|discriminate].
    destruct (_ <=? 9); [|discriminate]. apply IH. lia.
Qed.

Lemma parse_uint_nonneg max s v : parse_uint max s = Some v → 0 <= v.
Proof.
  unfold parse_uint.
  destruct (match list_ascii_of_string s with
            | [] => [] | c :: r => if Ascii.eqb c "+"%char then r else list_ascii_of_string s
            end) as [|c cs]; [discriminate|].
  destruct (parse_digits (c :: cs) 0) as [w|] eqn:E; [|discriminate].
  destruct (w <=? max); [|discriminate]. intros [= <-].
  exact (parse_digits_nonneg (c :: cs) 0 w ltac:(lia) E).
Qed.

Lemma parse_usize_not_command cmd row :
  parse_usize cmd = Some row → String.eqb cmd "f" = false ∧ String.eqb cmd "q" = false.
Proof.
  intros H. split; destruct (String.eqb_spec cmd "f"); destruct (String.eqb_spec cmd "q");
    subst; try done; vm_compute in H; discriminate.
Qed.

(** C10: a typed row number [row] (a line that parses as [usize]) is a
    zero-based index into the ascending id list: [row >= n] is refused
    with "Row out of range." and the session goes on unchanged with the
    next line, without reading a quantity; [row < n] followed by a
    quantity line reserves (or fails to reserve) the item
    [ids[row]], the [row + 1]-th id in ascending order (a panic can
    only come from the quantity arithmetic). *)
Theorem row_selects_sorted_index (sess : session) (cmd : string) (row : Z)
    (rest : list string) :
  parse_usize cmd = Some row →
  (Z.of_nat (length (Store.inventory_ids_sorted (store sess))) <= row →
     step sess (cmd :: rest) = (EvRowOutOfRange row, sess, rest)) ∧
  (row < Z.of_nat (length (Store.inventory_ids_sorted (store sess))) →
     ∀ qty_line qty rest', parse_u32 qty_line = Some qty → rest = qty_line :: rest' →
     match step sess (cmd :: rest) with
     | (EvSelected item_id q, _, r) | (EvAdjustFailed item_id q _, _, r) =>
         Store.inventory_ids_sorted (store sess) !! Z.to_nat row = Some item_id ∧
         q = qty ∧ r = rest'
     | (EvPanic, _, _) => True
     | _ => False
     end).
Proof.
  intros Hp. destruct (parse_usize_not_command cmd row Hp) as [Hf Hq].
  split.
  - intros Hge. unfold step. rewrite Hf, Hq, Hp.
    by rewrite (proj2 (Z.leb_le _ _) Hge).
  - intros Hlt qty_line qty rest' Hqty ->. unfold step. rewrite Hf, Hq, Hp.
    rewrite (proj2 (Z.leb_gt _ _) Hlt). simpl. rewrite Hqty.
    assert (Hrow : 0 <= row) by (eapply parse_uint_nonneg; exact Hp).
    destruct (lookup_lt_is_Some_2 (Store.inventory_ids_sorted (store sess)) (Z.to_nat row))
      as [x Hx]; [lia|].
    rewrite (nth_lookup _ _ 0), Hx. simpl.
    destruct (i32_neg _); [|done].
    destruct (Store.adjust_stock _ _ _) as [[v|msg] s1]; [|done].
    destruct (u32_add _ _); done.
Qed.

Lemma row_selects_sorted_index_witness :
  parse_usize "5" = Some 5 ∧
  step (mk_session store_12 ∅) ["5"; "3"]%string
    = (EvRowOutOfRange 5, mk_session store_12 ∅, ["3"]%string).
Proof.
  split; [reflexivity|].
  apply (proj1 (row_selects_sorted_index (mk_session store_12 ∅) "5" 5 ["3"]%string
                  eq_refl)).
  vm_compute. intros H; discriminate H.
Defined.

(** ** Weight display *)

Lemma round_ne_spec n d :
  0 < d → 2 * round_ne n d * d <= 2 * n + d ∧ 2 * n <= 2 * round_ne n d * d + d.
Proof.
  intros Hd. unfold round_ne.
  pose proof (Z.div_mod n d ltac:(lia)) as Hn.
  pose proof (Z.mod_pos_bound n d Hd) as Hr.
  set (q := n / d) in *. set (r := n mod d) in *.
  destruct (Z.ltb_spec (2 * r) d); [nia|].
  destruct (Z.ltb_spec d (2 * r)); [nia|].
  destruct (Z.even q); nia.
Qed.

Lemma round_ratio_bounds n d :
  0 < n → 0 < d → -1074 <= Z.log2 n - Z.log2 d - 53 → Z.log2 n - Z.log2 d - 52 <= 0 →
  Z.log2 n - Z.log2 d - 53 <= exp (round_ratio n d) <= Z.log2 n - Z.log2 d - 52 ∧
  2 * mant (round_ratio n d) * d <= 2 * (n * 2 ^ (- exp (round_ratio n d))) + d ∧
  2 * (n * 2 ^ (- exp (round_ratio n d))) <= 2 * mant (round_ratio n d) * d + d.
Proof.
  intros Hn Hd Hlo Hhi. unfold round_ratio.
  set (e0 := Z.log2 n - Z.log2 d - 53) in *.
  destruct (scaled n d e0) as [n0 d0].
  assert (He : ∃ e1, e0 <= e1 <= e0 + 1 ∧
            (if 2 ^ 53 <=? n0 / d0 then e0 + 1 else e0) = e1)
    by (destruct (2 ^ 53 <=? n0 / d0); eexists; split; [|reflexivity| |reflexivity]; lia).
  destruct He as [e1 [He1 ->]].
  rewrite Z.max_l by lia.
  unfold scaled. rewrite (proj2 (Z.leb_le e1 0)) by lia. simpl.
  pose proof (round_ne_spec (n * 2 ^ (- e1)) d Hd). lia.
Qed.

Definition M_f64 : Z := 7979681361367579.

Lemma lb_literal : f64_lit 45359237 5 = F64 M_f64 (-44).
Proof. vm_compute. reflexivity. Qed.

Lemma oz_literal : f64_lit 28349523125 9 = F64 M_f64 (-48).
Proof. vm_compute. reflexivity. Qed.

Definition pounds (g : Z) : Z :=
  f64_as_u32 (f64_ceil (f64_div (f64_of_u32 g) (f64_lit 45359237 5))).

Definition ounces (g : Z) : Z :=
  f64_as_u32 (f64_ceil (f64_div (f64_of_u32 g) (f64_lit 28349523125 9))).

Lemma ceil_ratio_between a b K :
  0 < b → b * (K - 1) < a <= b * K → ceil_ratio a b = K.
Proof.
  intros Hb Ha. unfold ceil_ratio.
  rewrite <- (Z.div_unique_pos (- a) b (- K) (b * K - a)); [lia|lia|ring].
Qed.

Lemma ceil_ratio_bounds a b :
  0 < b → b * (ceil_ratio a b - 1) < a <= b * ceil_ratio a b.
Proof.
  intros Hb. unfold ceil_ratio.
  pose proof (Z.div_mod (- a) b ltac:(lia)). pose proof (Z.mod_pos_bound (- a) b Hb).
  nia.
Qed.

(** The core of the pound band: a quotient [m * 2 ^ (- e)] within half an
    ulp of [g / 453.59237] has the same ceiling as the exact quotient
    whenever the latter is not an integer. *)
Lemma lb_core g m E K :
  908 <= g <= u32_max → 2 ^ 29 <= E →
  2 * m * M_f64 <= 2 * (g * 2 ^ 44 * E) + M_f64 →
  2 * (g * 2 ^ 44 * E) <= 2 * m * M_f64 + M_f64 →
  45359237 * (K - 1) < 100000 * g < 45359237 * K →
  (K - 1) * E < m <= K * E.
Proof.
  unfold M_f64, u32_max. intros Hg HE Hup Hlo HK.
  assert (HK1 : 1 <= K) by lia.
  assert (HK2 : K - 1 <= 9468782) by lia.
  assert (H1 : 100000 * (g * E) <= 45359237 * (K * E) - E) by nia.
  assert (H2 : 45359237 * ((K - 1) * E) + E <= 100000 * (g * E)) by nia.
  assert (H3 : (K - 1) * E <= 9468782 * E) by nia.
  replace (g * 2 ^ 44 * E) with (2 ^ 44 * (g * E)) in Hup, Hlo by ring.
  replace ((K - 1) * E) with (K * E - E) in H2, H3 |- * by ring.
  split.
  - destruct (Z.lt_ge_cases (K * E - E) m) as [|Hm]; [assumption|exfalso].
    lia.
  - destruct (Z.le_gt_cases m (K * E)) as [|Hm]; [assumption|exfalso].
    lia.
Qed.

Lemma pounds_exact g :
  908 <= g <= u32_max → ¬ (45359237 | g) → pounds g = ceil_ratio (g * 100000) 45359237.
Proof.
  intros Hg Hdiv. unfold pounds. rewrite lb_literal. unfold f64_div, f64_of_u32.
  cbn [mant exp].
  replace (Z.max (0 - -44) 0) with 44 by reflexivity.
  replace (M_f64 * 2 ^ Z.max (-44 - 0) 0) with M_f64 by reflexivity.
  set (K := ceil_ratio (g * 100000) 45359237).
  pose proof (ceil_ratio_bounds (g * 100000) 45359237 ltac:(lia)) as HK.
  fold K in HK.
  assert (HKne : g * 100000 <> 45359237 * K).
  { intros Heq. apply Hdiv. apply (Z.gauss _ 100000); [|reflexivity].
    exists K. lia. }
  assert (Hlog : Z.log2 (g * 2 ^ 44) = 44 + Z.log2 g)
    by (apply Z.log2_mul_pow2; lia).
  assert (Hlg : 0 <= Z.log2 g <= 31).
  { split; [apply Z.log2_nonneg|].
    change 31 with (Z.log2 (2 ^ 32 - 1)). apply Z.log2_le_mono. unfold u32_max in Hg. lia. }
  assert (HlM : Z.log2 M_f64 = 52) by reflexivity.
  destruct (round_ratio_bounds (g * 2 ^ 44) M_f64) as [He [Hup Hlo]];
    [lia|unfold M_f64; lia|lia|lia|].
  destruct (round_ratio (g * 2 ^ 44) M_f64) as [m e]. cbn [mant exp] in *.
  assert (HE : 2 ^ 29 <= 2 ^ (- e)) by (apply Z.pow_le_mono_r; lia).
  unfold f64_ceil. cbn [mant exp]. rewrite (proj2 (Z.leb_gt 0 e)) by lia.
  destruct (lb_core g m (2 ^ (- e)) K) as [Hm1 Hm2];
    [lia|lia|nia|nia|lia|].
  rewrite (ceil_ratio_between m (2 ^ (- e)) K); [|lia|nia].
  unfold f64_as_u32. cbn [mant exp]. simpl. unfold u32_max in *. lia.
Qed.

Lemma pounds_multiples_check :
  forallb (λ k, Z.eqb (pounds (45359237 * k)) (ceil_ratio (45359237 * k * 100000) 45359237))
    (seqZ 1 94) = true.
Proof. vm_compute. reflexivity. Qed.

Lemma ounces_check :
  forallb (λ g, Z.eqb (ounces g) (ceil_ratio (g * 1000000000) 28349523125))
    (seqZ 57 851) = true.
Proof. vm_compute. reflexivity. Qed.

Lemma forallb_seqZ (f : Z → bool) lo n x :
  forallb f (seqZ lo n) = true → lo <= x < lo + n → f x = true.
Proof.
  intros H Hx. apply (proj1 (forallb_forall f _) H).
  apply list_elem_of_In, elem_of_seqZ. lia.
Qed.

Lemma pounds_spec g :
  908 <= g <= u32_max → pounds g = ceil_ratio (g * 100000) 45359237.
Proof.
  intros Hg. destruct (Z.eq_dec (g mod 45359237) 0) as [Hm|Hm].
  - apply Z.mod_divide in Hm as [k ->]; [|lia]. rewrite (Z.mul_comm k).
    apply Z.eqb_eq.
    apply (forallb_seqZ _ 1 94 k pounds_multiples_check). unfold u32_max in Hg. lia.
  - apply pounds_exact; [exact Hg|].
    rewrite <- Z.mod_divide by lia. exact Hm.
Qed.

Lemma ounces_spec g :
  57 <= g <= 907 → ounces g = ceil_ratio (g * 1000000000) 28349523125.
Proof.
  intros Hg. apply Z.eqb_eq. apply (forallb_seqZ _ 57 851 g ounces_check). lia.
Qed.

(** C8: [Grams] is displayed in three bands: from 908 g up as
    [ceil (g / 453.59237)] pounds, from 57 g to 907 g as
    [ceil (g / 28.349523125)] ounces, below 57 g as grams; the ceilings
    are those of the exact decimal ratios (written [ceil_ratio] over
    integers), the [f64] rounding of the source never changes them for
    any [u32] weight.  So 10 g is "10g", 57 g is "3oz", 908 g is "3lb"
    and 12613 g is "28lb". *)
Theorem Grams_fmt_bands (g : Z) :
  0 <= g <= u32_max →
  Grams_fmt g =
    (if 908 <=? g then (fmt_uint (ceil_ratio (g * 100000) 45359237) ++ "lb")%string
     else if 57 <=? g then (fmt_uint (ceil_ratio (g * 1000000000) 28349523125) ++ "oz")%string
     else (fmt_uint g ++ "g")%string) ∧
  Grams_fmt 10 = "10g"%string ∧ Grams_fmt 57 = "3oz"%string ∧
  Grams_fmt 908 = "3lb"%string ∧ Grams_fmt 12613 = "28lb"%string.
Proof.
  intros Hg. split; [|vm_compute; repeat split].
  unfold Grams_fmt.
  destruct (Z.leb_spec 908 g).
  - fold (pounds g). rewrite pounds_spec by lia. reflexivity.
  - destruct (Z.leb_spec 57 g); [|reflexivity].
    fold (ounces g). rewrite ounces_spec by lia. reflexivity.
Qed.

Lemma Grams_fmt_bands_witness :
  Grams_fmt 4294967295 = "9468783lb"%string.
Proof.
  rewrite (proj1 (Grams_fmt_bands 4294967295 ltac:(unfold u32_max; lia))).
  vm_compute. reflexivity.
Defined.
(* ------------------------------------------------------------------ *)
(** ** Decimal rendering and parsing *)

Lemma parse_digits_app cs1 cs2 a :
  parse_digits (cs1 ++ cs2) a =
  match parse_digits cs1 a with Some v => parse_digits cs2 v | None => None end.
Proof.
  revert a. induction cs1 as [|c cs1 IH]; intros a; simpl; [done|].
  destruct (_ && _); [apply IH|done].
Qed.

Lemma digit_char x :
  0 <= x < 10 →
  Z.of_nat (nat_of_ascii (ascii_of_nat (48 + Z.to_nat x))) - 48 = x ∧
  Ascii.eqb (ascii_of_nat (48 + Z.to_nat x)) "+" = false.
Proof.
  intros Hx.
  assert (x = 0 ∨ x = 1 ∨ x = 2 ∨ x = 3 ∨ x = 4 ∨ x = 5 ∨ x = 6 ∨ x = 7 ∨ x = 8 ∨ x = 9)
    as Hc by lia.
  repeat destruct Hc as [->|Hc]; subst; split; reflexivity.
Qed.

Lemma fmt_digits_S f n acc :
  fmt_digits (S f) n acc =
  let acc' := String (ascii_of_nat (48 + Z.to_nat (n mod 10))) acc in
  if n <? 10 then acc' else fmt_digits f (n / 10) acc'.
Proof. reflexivity. Qed.

Lemma fmt_digits_spec f n acc :
  (1 <= f)%nat → 0 <= n < 10 ^ Z.of_nat f →
  ∃ c cs, list_ascii_of_string (fmt_digits f n acc) = c :: cs ++ list_ascii_of_string acc ∧
    Ascii.eqb c "+" = false ∧
    ∀ a, parse_digits (c :: cs) a = Some (a * 10 ^ Z.of_nat (S (length cs)) + n).
Proof.
  revert n acc. induction f as [|f IH]; intros n acc Hf Hn; [lia|].
  rewrite fmt_digits_S. cbv zeta.
  pose proof (Z.mod_pos_bound n 10 ltac:(lia)) as Hm.
  destruct (digit_char (n mod 10) Hm) as [Hd Hplus].
  set (d := ascii_of_nat (48 + Z.to_nat (n mod 10))) in *. clearbody d.
  destruct (Z.ltb_spec n 10) as [Hlt|Hge].
  - exists d, []. split; [done|]. split; [exact Hplus|].
    intros a. simpl. rewrite Hd.
    rewrite (proj2 (Z.leb_le 0 (n mod 10))) by lia.
    rewrite (proj2 (Z.leb_le (n mod 10) 9)) by lia. simpl.
    rewrite Z.mod_small by lia. f_equal; lia.
  - assert (Hf' : (1 <= f)%nat).
    { destruct f; [|lia]. simpl in Hn. lia. }
    assert (Hq : 0 <= n / 10 < 10 ^ Z.of_nat f).
    { split; [apply Z.div_pos; lia|].
      apply Z.div_lt_upper_bound; [lia|].
      rewrite Nat2Z.inj_succ, Z.pow_succ_r in Hn by lia. lia. }
    destruct (IH (n / 10) (String d acc) Hf' Hq) as (c & cs & Hl & Hc & Hp).
    exists c, (cs ++ [d]). split.
    + rewrite Hl. simpl. rewrite <- app_assoc. done.
    + split; [exact Hc|]. intros a.
      rewrite app_comm_cons, parse_digits_app, Hp. simpl. rewrite Hd.
      rewrite (proj2 (Z.leb_le 0 (n mod 10))) by lia.
      rewrite (proj2 (Z.leb_le (n mod 10) 9)) by lia. simpl.
      f_equal. rewrite length_app. simpl.
      rewrite (Z.div_mod n 10) at 3 by lia.
      replace (Z.of_nat (S (length cs + 1))) with (Z.of_nat (S (length cs)) + 1) by lia.
      rewrite Z.pow_add_r by lia. ring.
Qed.

Lemma parse_uint_fmt max n :
  0 <= n <= max → n < 10 ^ 20 → parse_uint max (fmt_uint n) = Some n.
Proof.
  intros Hn H20. unfold parse_uint, fmt_uint.
  destruct (fmt_digits_spec 20 n EmptyString ltac:(lia) ltac:(simpl; lia))
    as (c & cs & Hl & Hc & Hp).
  rewrite Hl. simpl. rewrite app_nil_r, Hc, Hp.
  rewrite Z.mul_0_l, Z.add_0_l. by rewrite (proj2 (Z.leb_le n max)) by lia.
Qed.

(** X1: a [u32] printed with [{}] is read back by [read_u32] (and,
    as a row number, by [cmd.parse::<usize>()]) as the same value. *)
Theorem parse_u32_of_display (n : Z) :
  0 <= n <= u32_max →
  parse_u32 (fmt_uint n) = Some n ∧ parse_usize (fmt_uint n) = Some n.
Proof.
  unfold u32_max. intros Hn. split.
  - apply parse_uint_fmt; unfold u32_max; lia.
  - apply parse_uint_fmt; unfold usize_max, u64_max; lia.
Qed.

Lemma parse_u32_of_display_witness :
  parse_u32 (fmt_uint 4294967295) = Some 4294967295.
Proof.
  exact (proj1 (parse_u32_of_display 4294967295 ltac:(unfold u32_max; lia))).
Defined.

(** X2: [retry_read_u32] returns the value of the first line that
    parses as a [u32], and the lines after it; the lines before it are
    consumed.  When no line parses it consumes them all and keeps
    waiting. *)
Theorem retry_read_u32_first_valid (input : list string) :
  (∀ n rest, retry_read_u32 input = Some (n, rest) ↔
     ∃ bad line, input = bad ++ line :: rest ∧
       Forall (fun l => parse_u32 l = None) bad ∧ parse_u32 line = Some n) ∧
  (retry_read_u32 input = None ↔ Forall (fun l => parse_u32 l = None) input).
Proof.
  induction input as [|line input IH]; simpl.
  - split; [|split; [constructor|done]].
    intros n rest. split; [discriminate|].
    intros (bad & l & Heq & _). destruct bad; discriminate.
  - destruct IH as [IH1 IH2].
    destruct (parse_u32 line) as [v|] eqn:Hl.
    + split.
      * intros n rest. split.
        -- intros [= <- <-]. exists [], line. done.
        -- intros (bad & l & Heq & Hbad & Hp). destruct bad as [|b bad].
           ++ simpl in Heq. injection Heq as <- <-. congruence.
           ++ simpl in Heq. injection Heq as <- _. inversion Hbad. congruence.
      * split; [discriminate|]. intros Hf. inversion Hf. congruence.
    + split.
      * intros n rest. rewrite IH1. split.
        -- intros (bad & l & -> & Hbad & Hp). exists (line :: bad), l.
           split; [done|]. split; [by constructor|done].
        -- intros (bad & l & Heq & Hbad & Hp). destruct bad as [|b bad].
           ++ simpl in Heq. injection Heq as <- _. congruence.
           ++ simpl in Heq. injection Heq as <- ->. inversion Hbad. eauto.
      * rewrite IH2. split; [by constructor|]. by inversion 1.
Qed.

(** The text after the point in [Cents]' display, ["{:02}"]. *)
Definition cents_minor_text (minor : Z) : string :=
  ((if Z.ltb minor 10 then "0" else "") ++ fmt_uint minor)%string.

Lemma cents_minor_check :
  forallb (fun m => Nat.eqb (String.length (cents_minor_text m)) 2 &&
                    bool_decide (parse_u32 (cents_minor_text m) = Some m))
    (seqZ 0 100) = true.
Proof. vm_compute. reflexivity. Qed.

(** X3: the display of [Cents] is ["{}.{:02}"] of the whole units
    and the remainder: the text is [whole ++ "." ++ frac] with [frac]
    exactly two digits, and reading both parts back gives [c / 100] and
    [c mod 100], hence [c]. *)
Theorem Cents_fmt_round_trip (c : Z) :
  0 <= c <= u32_max →
  ∃ whole frac, Cents_fmt c = (whole ++ "." ++ frac)%string ∧
    String.length frac = 2%nat ∧
    parse_u32 whole = Some (c / 100) ∧ parse_u32 frac = Some (c mod 100) ∧
    c = 100 * (c / 100) + c mod 100.
Proof.
  intros Hc. exists (fmt_uint (c / 100)), (cents_minor_text (c mod 100)).
  pose proof (Z.mod_pos_bound c 100 ltac:(lia)) as Hm.
  pose proof (forallb_seqZ _ 0 100 (c mod 100) cents_minor_check ltac:(lia)) as Hchk.
  apply andb_prop in Hchk as [Hlen Hp].
  apply Nat.eqb_eq in Hlen. apply bool_decide_eq_true in Hp.
  split; [reflexivity|]. split; [exact Hlen|]. split; [|split; [exact Hp|]].
  - apply parse_uint_fmt; unfold u32_max in *;
      [split; [apply Z.div_pos|apply Z.div_le_upper_bound]; lia|].
    apply Z.div_lt_upper_bound; lia.
  - apply Z.div_mod. lia.
Qed.

Lemma Cents_fmt_round_trip_witness :
  ∃ whole frac, Cents_fmt 4294967295 = (whole ++ "." ++ frac)%string ∧
    parse_u32 whole = Some 42949672 ∧ parse_u32 frac = Some 95.
Proof.
  destruct (Cents_fmt_round_trip 4294967295 ltac:(unfold u32_max; lia))
    as (w & f & Heq & _ & Hw & Hf & _).
  exists w, f. split; [exact Heq|]. split; [exact Hw|exact Hf].
Defined.

(* ------------------------------------------------------------------ *)
(** ** Store operations *)



Lemma adjust_stock_ok s item_id item q d :
  Store.inventory s !! item_id = Some (item, q) → 0 <= q + d <= u32_max →
  Store.adjust_stock s item_id d =
  (Ok (q + d), Store.set_inventory s (<[item_id := (item, q + d)]> (Store.inventory s))).
Proof.
  intros Hs Hd. unfold Store.adjust_stock. rewrite Hs.
  rewrite (proj2 (Z.ltb_ge _ _)) by lia.
  unfold as_u32. rewrite Z.mod_small by (unfold u32_max in Hd; lia). done.
Qed.

Lemma set_inventory_twice s m1 m2 :
  Store.set_inventory (Store.set_inventory s m1) m2 = Store.set_inventory s m2.
Proof. by destruct s. Qed.

Lemma set_inventory_same s : Store.set_inventory s (Store.inventory s) = s.
Proof. by destruct s. Qed.

(** X5: [adjust_stock] changes nothing but the on-hand quantity of
    [item_id]: the item record stored there, every other entry, the
    order history and both id counters stay as they were, whether the
    call succeeds or fails. *)
Theorem adjust_stock_only_quantity (s : Store.t) (item_id qty_change : Z) :
  let s' := snd (Store.adjust_stock s item_id qty_change) in
  Store.orders s' = Store.orders s ∧
  Store.next_item_id s' = Store.next_item_id s ∧
  Store.next_order_id s' = Store.next_order_id s ∧
  (∀ j, j ≠ item_id → Store.inventory s' !! j = Store.inventory s !! j) ∧
  fst <$> Store.inventory s' !! item_id = fst <$> Store.inventory s !! item_id.
Proof.
  unfold Store.adjust_stock.
  destruct (Store.inventory s !! item_id) as [[item qty]|] eqn:E; simpl;
    [|repeat split; auto; by rewrite E].
  destruct (qty + qty_change <? 0); simpl; [repeat split; auto; by rewrite E|].
  split; [done|]. split; [done|]. split; [done|]. split.
  - intros j Hj. by rewrite lookup_insert_ne by congruence.
  - by rewrite lookup_insert_eq.
Qed.

(** X6: two successful adjustments of the same item make one:
    when [q + a] and [q + a + b] both lie in [0 ..= u32::MAX],
    [adjust_stock(id, a)] then [adjust_stock(id, b)] returns and leaves
    what [adjust_stock(id, a + b)] does. *)
Theorem adjust_stock_compose (s : Store.t) (item_id : Z) (item : Item.t) (q a b : Z) :
  Store.inventory s !! item_id = Some (item, q) →
  0 <= q + a <= u32_max → 0 <= q + a + b <= u32_max →
  Store.adjust_stock (snd (Store.adjust_stock s item_id a)) item_id b
  = Store.adjust_stock s item_id (a + b).
Proof.
  intros Hs Ha Hb.
  rewrite (adjust_stock_ok s item_id item q a Hs Ha). simpl.
  rewrite (adjust_stock_ok _ item_id item (q + a) b); [|simpl; apply lookup_insert_eq|lia].
  rewrite (adjust_stock_ok s item_id item q (a + b) Hs) by lia.
  simpl. rewrite insert_insert_eq, set_inventory_twice.
  by replace (q + a + b) with (q + (a + b)) by lia.
Qed.

Lemma adjust_stock_compose_witness :
  Store.adjust_stock (snd (Store.adjust_stock store_12 1 (-5))) 1 3
  = Store.adjust_stock store_12 1 (-2).
Proof.
  apply (adjust_stock_compose store_12 1 washer 12 (-5) 3);
    [reflexivity|unfold u32_max; lia|unfold u32_max; lia].
Defined.

(** X7: a successful [adjust_stock(id, d)] that does not wrap is
    undone by [adjust_stock(id, -d)]: the second call returns the
    original quantity and the store is exactly the one before the
    first call. *)
Theorem adjust_stock_undo (s : Store.t) (item_id : Z) (item : Item.t) (q d : Z) :
  Store.inventory s !! item_id = Some (item, q) →
  0 <= q <= u32_max → 0 <= q + d <= u32_max →
  Store.adjust_stock (snd (Store.adjust_stock s item_id d)) item_id (- d) = (Ok q, s).
Proof.
  intros Hs Hq Hd.
  rewrite (adjust_stock_ok s item_id item q d Hs Hd). simpl.
  rewrite (adjust_stock_ok _ item_id item (q + d) (- d)); [|simpl; apply lookup_insert_eq|lia].
  simpl. rewrite insert_insert_eq, set_inventory_twice.
  replace (q + d + - d) with q by lia.
  by rewrite insert_id, set_inventory_same.
Qed.

Lemma adjust_stock_undo_witness :
  Store.adjust_stock (snd (Store.adjust_stock store_12 1 (-12))) 1 12 = (Ok 12, store_12).
Proof.
  apply (adjust_stock_undo store_12 1 washer 12 (-12));
    [reflexivity|unfold u32_max; lia|unfold u32_max; lia].
Defined.

(** [commit_order] in closed form, for lines whose items all exist. *)
Lemma commit_order_spec (s : Store.t) (lines : list OrderLine.t) :
  item_values_u32 s → Forall (line_ok s) lines →
  Store.commit_order s lines =
    let C := lines_sum Item.cost (Store.inventory s) lines in
    let W := lines_sum Item.weight (Store.inventory s) lines in
    if (C <=? u32_max) && (W <=? u32_max) && (Store.next_order_id s <? u32_max)
    then Some (Order.mk (Store.next_order_id s) C W lines,
               Store.mk (Store.inventory s) (Store.orders s) (Store.next_item_id s)
                        (Store.next_order_id s + 1))
    else None.
Proof.
  intros Hs Hl. unfold Store.commit_order.
  rewrite (sum_lines_spec s lines 0 0 Hs Hl) by (unfold u64_max; lia).
  rewrite !Z.add_0_l. simpl.
  pose proof (lines_sum_nonneg Item.cost s lines Hs Hl (fun it H => proj1 H)) as Hc.
  pose proof (lines_sum_nonneg Item.weight s lines Hs Hl (fun it H => proj2 H)) as Hw.
  set (C := lines_sum Item.cost (Store.inventory s) lines) in *.
  set (W := lines_sum Item.weight (Store.inventory s) lines) in *.
  assert (Hbig : u32_max < u64_max) by (unfold u32_max, u64_max; lia).
  unfold u64_try_into_u32, u32_add.
  destruct (Z.leb_spec C u32_max), (Z.leb_spec W u32_max),
           (Z.leb_spec C u64_max), (Z.leb_spec W u64_max),
           (Z.ltb_spec (Store.next_order_id s) u32_max),
           (Z.leb_spec (Store.next_order_id s + 1) u32_max);
    simpl_leb; try lia; done.
Qed.

Lemma sum_lines_missing inv lines l c g :
  In l lines → inv !! OrderLine.item_id l = None → Store.sum_lines inv lines c g = None.
Proof.
  revert c g. induction lines as [|l' lines IH]; intros c g; [done|].
  intros [<-|Hin] Hl; simpl.
  - by rewrite Hl.
  - destruct (inv !! OrderLine.item_id l') as [[it a]|]; [|done].
    destruct (u64_mul _ _); [|done]. destruct (u64_add _ _); [|done].
    destruct (u64_mul _ _); [|done]. destruct (u64_add _ _); [|done].
    by apply IH.
Qed.

Lemma commit_order_missing s lines l :
  In l lines → Store.inventory s !! OrderLine.item_id l = None → Store.commit_order s lines = None.
Proof.
  intros Hin Hl. unfold Store.commit_order. by rewrite (sum_lines_missing _ _ l 0 0 Hin Hl).
Qed.

(** X8: [commit_order] panics ([expect("Line item not found")])
    as soon as one line names an item that is not in the inventory,
    whatever the other lines are; with no lines at all it returns an
    order of cost 0 and weight 0 and still uses up an order id. *)
Theorem commit_order_edge_cases (s : Store.t) (lines : list OrderLine.t) :
  ((∃ l, In l lines ∧ Store.inventory s !! OrderLine.item_id l = None) →
     Store.commit_order s lines = None) ∧
  Store.commit_order s [] =
    if Store.next_order_id s <? u32_max
    then Some (Order.mk (Store.next_order_id s) 0 0 [],
               Store.mk (Store.inventory s) (Store.orders s) (Store.next_item_id s)
                        (Store.next_order_id s + 1))
    else None.
Proof.
  split.
  - intros (l & Hin & Hl). exact (commit_order_missing s lines l Hin Hl).
  - unfold Store.commit_order. simpl. unfold u64_try_into_u32, u32_add.
    destruct (Z.ltb_spec (Store.next_order_id s) u32_max);
      [rewrite (proj2 (Z.leb_le _ _)) by lia|rewrite (proj2 (Z.leb_gt _ _)) by lia]; done.
Qed.

Lemma commit_order_edge_cases_witness :
  Store.commit_order store_12 [OrderLine.mk 1 3; OrderLine.mk 7 1] = None.
Proof.
  apply (proj1 (commit_order_edge_cases store_12 [OrderLine.mk 1 3; OrderLine.mk 7 1])).
  exists (OrderLine.mk 7 1). split; [right; left; reflexivity|reflexivity].
Defined.

Lemma lines_sum_perm f inv l1 l2 :
  l1 ≡ₚ l2 → lines_sum f inv l1 = lines_sum f inv l2.
Proof. induction 1; simpl; lia. Qed.

Lemma lines_present_or_missing (inv : gmap Z (Item.t * Z)) (lines : list OrderLine.t) :
  Forall (fun l => is_Some (inv !! OrderLine.item_id l)) lines ∨
  ∃ l, In l lines ∧ inv !! OrderLine.item_id l = None.
Proof.
  induction lines as [|l lines [IH|(l' & Hin & Hl')]].
  - by left.
  - destruct (inv !! OrderLine.item_id l) eqn:E.
    + left. constructor; [by eexists|exact IH].
    + right. exists l. split; [left|]; done.
  - right. exists l'. split; [right|]; done.
Qed.

(** X9: the order in which the lines are given does not matter to
    [commit_order]: for lines with [u32] quantities, a permutation of
    them panics exactly when the original does, and otherwise gives an
    order with the same id, cost and weight, and the same store. *)
Theorem commit_order_line_order (s : Store.t) (l1 l2 : list OrderLine.t) :
  item_values_u32 s → Forall (fun l => is_u32 (OrderLine.qty l)) l1 → l1 ≡ₚ l2 →
  match Store.commit_order s l1, Store.commit_order s l2 with
  | Some (o1, s1), Some (o2, s2) =>
      Order.id o1 = Order.id o2 ∧ Order.cost o1 = Order.cost o2 ∧
      Order.ship_weight o1 = Order.ship_weight o2 ∧ s1 = s2
  | None, None => True
  | _, _ => False
  end.
Proof.
  intros Hs Hq Hp.
  destruct (lines_present_or_missing (Store.inventory s) l1) as [Hall|(l & Hin & Hl)].
  - assert (H1 : Forall (line_ok s) l1).
    { apply Forall_forall. intros l Hl. split.
      - by apply (proj1 (Forall_forall _ _) Hq).
      - by apply (proj1 (Forall_forall _ _) Hall). }
    assert (H2 : Forall (line_ok s) l2) by (by rewrite <- Hp).
    rewrite (commit_order_spec s l1 Hs H1), (commit_order_spec s l2 Hs H2). simpl.
    rewrite (lines_sum_perm Item.cost _ l1 l2 Hp), (lines_sum_perm Item.weight _ l1 l2 Hp).
    destruct (_ && _ && _); done.
  - rewrite (commit_order_missing s l1 l Hin Hl).
    assert (Hin2 : In l l2).
    { apply list_elem_of_In. rewrite <- Hp. by apply list_elem_of_In. }
    by rewrite (commit_order_missing s l2 l Hin2 Hl).
Qed.

Lemma commit_order_line_order_witness :
  Store.commit_order store_12 [OrderLine.mk 1 3; OrderLine.mk 1 2]
  = Some (Order.mk 1 40 10 [OrderLine.mk 1 3; OrderLine.mk 1 2],
          Store.mk (Store.inventory store_12) [] 1 2) ∧
  match Store.commit_order store_12 [OrderLine.mk 1 3; OrderLine.mk 1 2],
        Store.commit_order store_12 [OrderLine.mk 1 2; OrderLine.mk 1 3] with
  | Some (o1, s1), Some (o2, s2) =>
      Order.id o1 = Order.id o2 ∧ Order.cost o1 = Order.cost o2 ∧
      Order.ship_weight o1 = Order.ship_weight o2 ∧ s1 = s2
  | None, None => True
  | _, _ => False
  end.
Proof.
  split; [vm_compute; reflexivity|].
  apply commit_order_line_order.
  - intros i it q. unfold store_12, Store.stock, Store.set_inventory; simpl.
    destruct (decide (i = 1)) as [->|Hne].
    + rewrite lookup_insert_eq. intros [= <- _]. unfold is_u32, u32_max; simpl; lia.
    + rewrite lookup_insert_ne by congruence. rewrite lookup_empty. discriminate.
  - repeat constructor; unfold u32_max; simpl; lia.
  - apply Permutation_swap.
Defined.

(* ------------------------------------------------------------------ *)
(** ** Receipts and item creation *)

Lemma receipt_lines_ok s s2 lines :
  item_values_u32 s → Forall (line_ok s) lines → Store.inventory s2 = Store.inventory s →
  lines_sum Item.cost (Store.inventory s) lines <= u32_max →
  snd (receipt_lines s2 lines) = true ∧ length (fst (receipt_lines s2 lines)) = length lines.
Proof.
  intros Hs Hl Hinv. induction Hl as [|l rest [Hq [[it a] Hin]] Hrest IH]; simpl; [done|].
  intros Hsum. unfold Store.inventory_get. rewrite Hinv, Hin. rewrite Hin in Hsum.
  destruct (Hs _ _ _ Hin) as [Hc _].
  pose proof (lines_sum_nonneg Item.cost s rest Hs Hrest (fun it H => proj1 H)) as Hr.
  assert (Hcq : 0 <= Item.cost it * OrderLine.qty l).
  { unfold is_u32 in Hc, Hq. nia. }
  unfold u32_mul. rewrite (proj2 (Z.leb_le _ _)) by lia.
  destruct (IH ltac:(lia)) as [Hok Hlen].
  destruct (receipt_lines s2 rest) as [out ok]. simpl in *. by rewrite Hlen.
Qed.

(** X10: the receipt of an order that [commit_order] returned never
    panics, when printed from any store with the same inventory (the
    store [commit_order] returns, or that store after [push_order]):
    every line total [cost * qty] fits in [u32], and it prints one line
    per order line and then the total line. *)
Theorem print_receipt_after_commit (s : Store.t) (lines : list OrderLine.t) (o : Order.t)
    (s' s2 : Store.t) :
  item_values_u32 s → Forall (line_ok s) lines →
  Store.commit_order s lines = Some (o, s') →
  Store.inventory s2 = Store.inventory s →
  snd (print_receipt s2 o) = true ∧ length (fst (print_receipt s2 o)) = S (length lines).
Proof.
  intros Hs Hl Hc Hinv.
  rewrite (commit_order_spec s lines Hs Hl) in Hc. simpl in Hc.
  destruct (Z.leb_spec (lines_sum Item.cost (Store.inventory s) lines) u32_max) as [HC|];
    [|discriminate].
  destruct (_ && _); [|discriminate]. injection Hc as <- _.
  destruct (receipt_lines_ok s s2 lines Hs Hl Hinv HC) as [Hok Hlen].
  unfold print_receipt. simpl.
  destruct (receipt_lines s2 lines) as [out ok]. simpl in *. subst ok.
  simpl. split; [done|]. rewrite length_app, Hlen. simpl. lia.
Qed.

Lemma store_12_values : item_values_u32 store_12.
Proof.
  intros i it q. unfold store_12, Store.stock, Store.set_inventory; simpl.
  destruct (decide (i = 1)) as [->|Hne].
  - rewrite lookup_insert_eq. intros [= <- _]. unfold is_u32, u32_max; simpl; lia.
  - rewrite lookup_insert_ne by congruence. rewrite lookup_empty. discriminate.
Qed.

Lemma print_receipt_after_commit_witness :
  snd (print_receipt store_12 (Order.mk 1 24 6 lines_1)) = true.
Proof.
  refine (proj1 (print_receipt_after_commit store_12 lines_1 (Order.mk 1 24 6 lines_1)
                   (Store.mk (Store.inventory store_12) [] 1 2) store_12
                   store_12_values _ _ eq_refl)).
  - repeat constructor; unfold u32_max; simpl; try lia. vm_compute. eauto.
  - vm_compute. reflexivity.
Defined.

Lemma retry_read_u32_skip bad line rest n :
  Forall (fun l => parse_u32 l = None) bad → parse_u32 line = Some n →
  retry_read_u32 (bad ++ line :: rest) = Some (n, rest).
Proof.
  intros Hbad Hl. induction Hbad as [|b bad Hb _ IH]; simpl.
  - by rewrite Hl.
  - by rewrite Hb.
Qed.

(** X11: [create_stock] takes the first line as the item name, as it
    is, and then skips every line that does not parse as a [u32] until
    it has read the price, the weight and the quantity; it then stores
    the new item under the item-id counter and increments the counter,
    or panics if the counter is already [u32::MAX]. *)
Theorem create_stock_reads (s : Store.t) (name : string)
    (bad1 bad2 bad3 rest : list string) (price weight qty : string) (p w q : Z) :
  Forall (fun l => parse_u32 l = None) bad1 → parse_u32 price = Some p →
  Forall (fun l => parse_u32 l = None) bad2 → parse_u32 weight = Some w →
  Forall (fun l => parse_u32 l = None) bad3 → parse_u32 qty = Some q →
  create_stock s (name :: bad1 ++ price :: bad2 ++ weight :: bad3 ++ qty :: rest) =
    if Store.next_item_id s <? u32_max
    then Created (Store.mk (<[Store.next_item_id s :=
                               (Item.mk name (Store.next_item_id s) p w, q)]> (Store.inventory s))
                           (Store.orders s) (Store.next_item_id s + 1) (Store.next_order_id s))
                 rest
    else CreatePanic.
Proof.
  intros H1 Hp H2 Hw H3 Hq. unfold create_stock.
  rewrite (retry_read_u32_skip _ _ _ _ H1 Hp), (retry_read_u32_skip _ _ _ _ H2 Hw),
    (retry_read_u32_skip _ _ _ _ H3 Hq).
  unfold Store.stock_new, u32_add. simpl.
  destruct (Z.ltb_spec (Store.next_item_id s) u32_max);
    [rewrite (proj2 (Z.leb_le _ _)) by lia|rewrite (proj2 (Z.leb_gt _ _)) by lia]; done.
Qed.

Lemma create_stock_reads_witness :
  create_stock Store.new ["Hex bolt"; "25c"; "25"; ""; "11"; "40"]%string =
    Created (Store.mk {[1 := (Item.mk "Hex bolt" 1 25 11, 40)]} [] 2 1) [].
Proof.
  refine (eq_trans (create_stock_reads Store.new "Hex bolt" ["25c"] [""] [] []
                      "25" "11" "40" 25 11 40 _ eq_refl _ eq_refl _ eq_refl) _).
  - repeat constructor.
  - repeat constructor.
  - constructor.
  - reflexivity.
Defined.

(* ------------------------------------------------------------------ *)
(** ** The order builder's effect on the store *)

(** Every quantity of the inventory is a [u32]. *)
Definition quantities_u32 (s : Store.t) : Prop :=
  ∀ item_id item qty, Store.inventory s !! item_id = Some (item, qty) → is_u32 qty.

(** During a session started on [s0]: the items are those of [s0], and
    each item's on-hand quantity plus its reservation is its quantity
    in [s0]. *)
Definition reserve_inv (s0 : Store.t) (sess : session) : Prop :=
  Store.orders (store sess) = Store.orders s0 ∧
  Store.next_item_id (store sess) = Store.next_item_id s0 ∧
  Store.next_order_id (store sess) = Store.next_order_id s0 ∧
  ∀ id, match Store.inventory s0 !! id with
        | None => Store.inventory (store sess) !! id = None ∧ order_qty sess !! id = None
        | Some (item, q) =>
            ∃ q', Store.inventory (store sess) !! id = Some (item, q') ∧ 0 <= q' ∧
                  0 <= default 0 (order_qty sess !! id) ∧
                  q' + default 0 (order_qty sess !! id) = q
        end.

Lemma reserve_inv_init s0 : quantities_u32 s0 → reserve_inv s0 (mk_session s0 ∅).
Proof.
  intros Hu. split; [done|]. split; [done|]. split; [done|].
  intros id. simpl. rewrite lookup_empty. simpl.
  destruct (Store.inventory s0 !! id) as [[item q]|] eqn:E; [|done].
  exists q. pose proof (Hu _ _ _ E) as Hq. unfold is_u32 in Hq.
  split; [done|]. lia.
Qed.

Lemma retry_read_u32_nonneg input n rest :
  retry_read_u32 input = Some (n, rest) → 0 <= n.
Proof.
  induction input as [|l input IH]; simpl; [discriminate|].
  destruct (parse_u32 l) as [v|] eqn:E; [|exact IH].
  intros [= <- _]. exact (parse_uint_nonneg _ _ _ E).
Qed.

Lemma apply_selections_cons m ev evs :
  apply_selections m (ev :: evs) = apply_selections (apply_selections m [ev]) evs.
Proof. reflexivity. Qed.

Lemma step_reserve s0 sess input ev sess1 rest :
  quantities_u32 s0 → reserve_inv s0 sess → step sess input = (ev, sess1, rest) →
  (∀ id q, ev = EvSelected id q → q <= i32_max) →
  order_qty sess1 = apply_selections (order_qty sess) [ev] ∧
  (ev = EvCancelled →
     sess1 = mk_session (restore (store sess) (order_qty sess)) (order_qty sess)) ∧
  (ev ≠ EvCancelled → reserve_inv s0 sess1).
Proof.
  intros Hu Hinv. unfold step.
  destruct input as [|cmd rest0]; [intros [= <- <- _]; done|].
  destruct (String.eqb cmd "f").
  { destruct (decide _); intros [= <- <- _]; done. }
  destruct (String.eqb cmd "q"); [intros [= <- <- _]; done|].
  destruct (parse_usize cmd) as [row|]; [|intros [= <- <- _]; done].
  destruct (_ <=? row); [intros [= <- <- _]; done|].
  set (item_id := nth (Z.to_nat row) (Store.inventory_ids_sorted (store sess)) 0).
  destruct (retry_read_u32 rest0) as [[qty rest']|] eqn:Er; [|intros [= <- <- _]; done].
  apply retry_read_u32_nonneg in Er.
  destruct (i32_neg _) as [delta|] eqn:En; [|intros [= <- <- _]; done].
  destruct (Store.adjust_stock (store sess) item_id delta) as [[v|msg] s1] eqn:Ea;
    [|intros [= <- <- _]; done].
  destruct (u32_add _ _) as [n|] eqn:Eu; [|intros [= <- <- _]; done].
  apply u32_add_some in Eu.
  intros [= <- <- _] Hsel. specialize (Hsel _ _ eq_refl).
  split; [simpl; by rewrite Eu|]. split; [discriminate|]. intros _.
  unfold u32_as_i32, i32_neg, i32_min in En.
  rewrite (proj2 (Z.leb_le _ _) Hsel) in En.
  destruct (Z.eqb_spec qty (- 2 ^ 31)); [lia|]. injection En as <-.
  destruct Hinv as (Ho & Hi & Hn & Hinv). simpl.
  revert Ea. unfold Store.adjust_stock.
  destruct (Store.inventory (store sess) !! item_id) as [[item q']|] eqn:Eq;
    [|intros [= _ <-]; discriminate].
  destruct (Z.ltb_spec (q' + - qty) 0); [intros [= _ <-]; discriminate|].
  intros [= _ <-]. unfold Store.set_inventory.
  cbn [store order_qty Store.inventory Store.orders Store.next_item_id Store.next_order_id].
  split; [done|]. split; [done|]. split; [done|].
  intros id. specialize (Hinv id).
  destruct (decide (id = item_id)) as [->|Hne].
  - destruct (Store.inventory s0 !! item_id) as [[item0 q0]|] eqn:E0;
      [|destruct Hinv as [Hin _]; congruence].
    destruct Hinv as (q1 & Hq1 & Hq1n & Hoq & Hsum).
    rewrite Eq in Hq1. injection Hq1 as <- <-.
    pose proof (Hu _ _ _ E0) as Hq0. unfold is_u32, u32_max in Hq0.
    exists (q' + - qty). simpl. rewrite !lookup_insert_eq. simpl.
    unfold as_u32. rewrite Z.mod_small by lia.
    split; [done|]. lia.
  - destruct (Store.inventory s0 !! id) as [[item0 q0]|].
    + destruct Hinv as (q1 & Hq1 & Hrest). exists q1.
      simpl. rewrite !lookup_insert_ne by congruence. split; done.
    + simpl. rewrite !lookup_insert_ne by congruence. exact Hinv.
Qed.

Lemma run_reserve s0 fuel sess input evs sess' :
  quantities_u32 s0 → reserve_inv s0 sess → run fuel sess input = (evs, sess') →
  (∀ id q, In (EvSelected id q) evs → q <= i32_max) →
  ∃ pre, reserve_inv s0 pre ∧ order_qty pre = apply_selections (order_qty sess) evs ∧
    (last evs = Some EvCancelled →
       sess' = mk_session (restore (store pre) (order_qty pre)) (order_qty pre)) ∧
    (last evs ≠ Some EvCancelled → sess' = pre).
Proof.
  intros Hu. revert sess input evs sess'.
  induction fuel as [|fuel IH]; intros sess input evs sess' Hinv; simpl.
  - intros [= <- <-] _. exists sess. split; [done|]. split; [done|]. split; done.
  - destruct (step sess input) as [[ev sess1] rest] eqn:Hs.
    destruct (terminal ev) eqn:Ht.
    + intros [= <- <-] Hsel.
      destruct (step_reserve s0 sess input ev sess1 rest Hu Hinv Hs) as (Hq & Hc & Hn).
      { intros id q ->. apply (Hsel id q). by left. }
      assert (Hd : ev = EvCancelled ∨ ev ≠ EvCancelled)
        by (destruct ev; (left; reflexivity) || (right; discriminate)).
      destruct Hd as [->|Hne].
      * exists sess. split; [done|]. split; [done|]. split; [|done]. intros _. exact (Hc eq_refl).
      * exists sess1. split; [exact (Hn Hne)|]. split; [exact Hq|].
        split; [intros [= ->]; done|done].
    + destruct (run fuel sess1 rest) as [evs1 fin] eqn:Hr. intros [= <- <-] Hsel.
      assert (Hne : ev ≠ EvCancelled) by (intros ->; discriminate).
      destruct (step_reserve s0 sess input ev sess1 rest Hu Hinv Hs) as (Hq & _ & Hn).
      { intros id q ->. apply (Hsel id q). by left. }
      destruct (IH sess1 rest evs1 fin (Hn Hne) Hr) as (pre & Hpre & Hpq & Hc & Hnc).
      { intros id q Hin. apply (Hsel id q). by right. }
      exists pre. split; [exact Hpre|]. split.
      { rewrite apply_selections_cons, <- Hq. exact Hpq. }
      destruct evs1 as [|ev1 evs1].
      * simpl in *. split; [intros [= ->]; done|]. intros _. apply Hnc. discriminate.
      * assert (Hl : last (ev :: ev1 :: evs1) = last (ev1 :: evs1)) by reflexivity.
        rewrite Hl. split; assumption.
Qed.

Lemma build_order_reserve s0 input evs s' :
  quantities_u32 s0 → build_order s0 input = (evs, s') →
  (∀ id q, In (EvSelected id q) evs → q <= i32_max) →
  ∃ pre, reserve_inv s0 pre ∧ order_qty pre = apply_selections ∅ evs ∧
    (last evs = Some EvCancelled → s' = restore (store pre) (order_qty pre)) ∧
    (last evs ≠ Some EvCancelled → s' = store pre).
Proof.
  intros Hu. unfold build_order.
  destruct (run _ _ _) as [evs1 sess] eqn:Hr. intros [= <- <-] Hsel.
  destruct (run_reserve s0 _ _ _ _ _ Hu (reserve_inv_init s0 Hu) Hr Hsel)
    as (pre & Hpre & Hq & Hc & Hn).
  exists pre. split; [exact Hpre|]. split; [exact Hq|].
  split; [intros H; by rewrite (Hc H)|intros H; by rewrite (Hn H)].
Qed.

(** X12: when the order builder finishes ([f]) on a store whose
    quantities are [u32] values, and every selected quantity is at most
    [i32::MAX], the store it leaves has the same items, order history
    and counters, and each item's on-hand quantity is its quantity
    before the session minus the quantity of its order line (unchanged
    for an item without a line). *)
Theorem build_order_finalized_stock (s0 : Store.t) (input : list string)
    (evs : list event) (s' : Store.t) (lines : list OrderLine.t) :
  build_order s0 input = (evs, s') → last evs = Some (EvFinalized lines) →
  quantities_u32 s0 → (∀ id q, In (EvSelected id q) evs → q <= i32_max) →
  Store.orders s' = Store.orders s0 ∧
  Store.next_item_id s' = Store.next_item_id s0 ∧
  Store.next_order_id s' = Store.next_order_id s0 ∧
  ∀ id, match Store.inventory s0 !! id with
        | None => Store.inventory s' !! id = None
        | Some (item, q) =>
            (∀ n, In (OrderLine.mk id n) lines → Store.inventory s' !! id = Some (item, q - n)) ∧
            ((∀ n, ¬ In (OrderLine.mk id n) lines) → Store.inventory s' !! id = Some (item, q))
        end.
Proof.
  intros Hb Hlast Hu Hsel.
  pose proof Hb as Hb'. unfold build_order in Hb'.
  destruct (run _ _ _) as [evs1 sess] eqn:Hr. injection Hb' as <- _.
  destruct (run_finalized _ _ _ _ _ _ Hr Hlast) as [Hlines _]. simpl in Hlines.
  destruct (build_order_reserve s0 input evs1 s' Hu Hb Hsel) as (pre & Hpre & Hq & _ & Hn).
  rewrite (Hn ltac:(rewrite Hlast; discriminate)).
  rewrite <- Hq in Hlines.
  destruct (finalize_spec (order_qty pre)) as (_ & Hin & _).
  destruct Hpre as (Ho & Hi & Hno & Hinv).
  split; [done|]. split; [done|]. split; [done|].
  intros id. specialize (Hinv id).
  destruct (Store.inventory s0 !! id) as [[item q]|]; [|by destruct Hinv].
  destruct Hinv as (q' & Hs & _ & _ & Hsum). split.
  - intros n Hl. rewrite Hlines, Hin in Hl. rewrite Hl in Hsum. simpl in Hsum.
    rewrite Hs. do 2 f_equal. lia.
  - intros Hnone. destruct (order_qty pre !! id) as [n|] eqn:E.
    + exfalso. apply (Hnone n). rewrite Hlines, Hin. exact E.
    + simpl in Hsum. rewrite Hs. do 2 f_equal. lia.
Qed.

Lemma build_order_finalized_stock_witness :
  Store.inventory_get (snd (build_order store_12 ["0"; "2"; "0"; "3"; "f"]%string)) 1
  = Some (washer, 7).
Proof.
  destruct (build_order store_12 ["0"; "2"; "0"; "3"; "f"]%string) as [evs s'] eqn:E.
  assert (Hl : last evs = Some (EvFinalized [OrderLine.mk 1 5])).
  { vm_compute in E. injection E as <- _. reflexivity. }
  destruct (build_order_finalized_stock store_12 _ evs s' _ E Hl) as (_ & _ & _ & H).
  - intros i it q. unfold store_12, Store.stock, Store.set_inventory; simpl.
    destruct (decide (i = 1)) as [->|Hne].
    + rewrite lookup_insert_eq. intros [= _ <-]. unfold is_u32, u32_max; lia.
    + rewrite lookup_insert_ne by congruence. rewrite lookup_empty. discriminate.
  - vm_compute in E. injection E as <- _. intros id q Hin.
    simpl in Hin. destruct Hin as [H|[H|[H|[]]]]; inversion H; subst; unfold i32_max; lia.
  - specialize (H 1). simpl. apply (proj1 H 5). by left.
Defined.

Lemma step_selected_nonneg sess input item_id qty sess1 rest :
  step sess input = (EvSelected item_id qty, sess1, rest) → 0 <= qty.
Proof.
  unfold step.
  destruct input as [|cmd rest0]; [discriminate|].
  destruct (String.eqb cmd "f"); [destruct (decide _); discriminate|].
  destruct (String.eqb cmd "q"); [discriminate|].
  destruct (parse_usize cmd) as [row|]; [|discriminate].
  destruct (_ <=? row); [discriminate|].
  destruct (retry_read_u32 rest0) as [[q rest']|] eqn:Er; [|discriminate].
  apply retry_read_u32_nonneg in Er.
  destruct (i32_neg _); [|discriminate].
  destruct (Store.adjust_stock _ _ _) as [[v|msg] s1]; [|discriminate].
  destruct (u32_add _ _); [|discriminate].
  intros H. inversion H. subst. exact Er.
Qed.

Lemma run_selected_nonneg fuel sess input evs sess' :
  run fuel sess input = (evs, sess') →
  ∀ item_id qty, In (EvSelected item_id qty) evs → 0 <= qty.
Proof.
  revert sess input evs sess'.
  induction fuel as [|fuel IH]; intros sess input evs sess'; simpl.
  - intros [= <- _]. done.
  - destruct (step sess input) as [[ev sess1] rest] eqn:Hs.
    destruct (terminal ev).
    + intros [= <- _] item_id qty [->|[]]. exact (step_selected_nonneg _ _ _ _ _ _ Hs).
    + destruct (run fuel sess1 rest) as [evs1 fin] eqn:Hr. intros [= <- _] item_id qty [->|Hin].
      * exact (step_selected_nonneg _ _ _ _ _ _ Hs).
      * exact (IH _ _ _ _ Hr item_id qty Hin).
Qed.

Lemma selected_qty_nonneg evs item_id :
  (∀ i q, In (EvSelected i q) evs → 0 <= q) → 0 <= selected_qty evs item_id.
Proof.
  induction evs as [|ev evs IH]; intros Hnn; simpl; [lia|].
  assert (0 <= selected_qty evs item_id) by (apply IH; intros i q H; apply (Hnn i q); by right).
  destruct ev as [|lns| | |r|i0 q0|i1 q1 m| |]; try done.
  pose proof (Hnn i0 q0 (or_introl eq_refl)).
  destruct (Z.eqb i0 item_id); lia.
Qed.

Lemma selected_qty_ge evs item_id qty :
  (∀ i q, In (EvSelected i q) evs → 0 <= q) →
  In (EvSelected item_id qty) evs → qty <= selected_qty evs item_id.
Proof.
  induction evs as [|ev evs IH]; [done|]. intros Hnn Hin.
  assert (Hnn' : ∀ i q, In (EvSelected i q) evs → 0 <= q)
    by (intros i q H; apply (Hnn i q); by right).
  pose proof (selected_qty_nonneg evs item_id Hnn') as Hge.
  destruct Hin as [->|Hin].
  - simpl. rewrite Z.eqb_refl. lia.
  - specialize (IH Hnn' Hin). destruct ev as [|lns| | |r|i0 q0|i1 q1 m| |]; simpl; try exact IH.
    pose proof (Hnn i0 q0 (or_introl eq_refl)).
    destruct (Z.eqb i0 item_id); lia.
Qed.

(** The fold of [restore] over a list of reservations with distinct
    ids, each an [i32] value that fits back into the item's [u32]
    quantity: every listed item gets its quantity back, nothing else
    moves. *)
Lemma restore_list (l : list (Z * Z)) (s : Store.t) :
  NoDup l.*1 →
  (∀ k v, (k, v) ∈ l → 0 <= v <= i32_max ∧
     ∃ item q', Store.inventory s !! k = Some (item, q') ∧ 0 <= q' ∧ q' + v <= u32_max) →
  let s' := foldl (fun s kv => snd (Store.adjust_stock s kv.1 (u32_as_i32 kv.2))) s l in
  Store.orders s' = Store.orders s ∧
  Store.next_item_id s' = Store.next_item_id s ∧
  Store.next_order_id s' = Store.next_order_id s ∧
  ∀ k, Store.inventory s' !! k =
       match (list_to_map l : gmap Z Z) !! k with
       | Some v => (fun p : Item.t * Z => (p.1, p.2 + v)) <$> Store.inventory s !! k
       | None => Store.inventory s !! k
       end.
Proof.
  revert s. induction l as [|[k v] l IH]; intros s Hnd Hl; simpl.
  - split; [done|]. split; [done|]. split; [done|]. intros k. by rewrite lookup_empty.
  - apply NoDup_cons in Hnd as [Hk Hnd].
    destruct (Hl k v ltac:(left)) as ([Hv0 Hv] & item & q' & Hq & Hq0 & Hqv).
    assert (Hi : u32_as_i32 v = v) by (unfold u32_as_i32; by rewrite (proj2 (Z.leb_le _ _) Hv)).
    rewrite Hi, (adjust_stock_ok s k item q' v Hq ltac:(lia)). simpl.
    set (s1 := Store.set_inventory s (<[k:=(item, q' + v)]> (Store.inventory s))).
    destruct (IH s1 Hnd) as (Ho & Hni & Hno & Hinv).
    { intros k2 v2 Hin. destruct (Hl k2 v2 ltac:(by right)) as (Hv2 & item2 & q2 & Hq2 & Hrest).
      split; [exact Hv2|]. exists item2, q2. split; [|exact Hrest].
      unfold s1, Store.set_inventory. simpl. rewrite lookup_insert_ne; [exact Hq2|].
      intros Heq. apply Hk. rewrite Heq. exact (list_elem_of_fmap_2 fst l (k2, v2) Hin). }
    split; [exact Ho|]. split; [exact Hni|]. split; [exact Hno|].
    intros j. rewrite Hinv.
    destruct (decide (j = k)) as [->|Hne].
    + rewrite lookup_insert_eq.
      rewrite (not_elem_of_list_to_map_1 l k Hk).
      unfold s1, Store.set_inventory. simpl. rewrite lookup_insert_eq, Hq. done.
    + rewrite lookup_insert_ne by congruence.
      unfold s1, Store.set_inventory. simpl. rewrite !lookup_insert_ne by congruence. done.
Qed.

Lemma restore_reserved s0 sess :
  quantities_u32 s0 → reserve_inv s0 sess →
  (∀ item_id v, order_qty sess !! item_id = Some v → v <= i32_max) →
  restore (store sess) (order_qty sess) = s0.
Proof.
  intros Hu (Ho & Hni & Hno & Hinv) Hb. unfold restore.
  destruct (restore_list (map_to_list (order_qty sess)) (store sess)
              (NoDup_fst_map_to_list _)) as (Ho' & Hni' & Hno' & Hl).
  { intros k v Hin. apply elem_of_map_to_list in Hin.
    specialize (Hinv k). pose proof (Hb k v Hin) as Hv.
    destruct (Store.inventory s0 !! k) as [[item q]|] eqn:E0;
      [|destruct Hinv as [_ Hn]; congruence].
    destruct Hinv as (q' & Hq & Hq0 & Hr0 & Hsum). rewrite Hin in Hr0, Hsum. simpl in *.
    pose proof (Hu _ _ _ E0) as Hq1. unfold is_u32 in Hq1.
    split; [lia|]. exists item, q'. split; [done|]. lia. }
  rewrite list_to_map_to_list in Hl.
  destruct s0 as [inv0 ord0 ni0 no0]. simpl in *.
  set (s' := foldl _ _ _) in *. destruct s' as [inv' ord' ni' no'] eqn:Es'. simpl in *.
  f_equal; [|congruence..].
  apply map_eq. intros k. rewrite Hl. specialize (Hinv k).
  destruct (inv0 !! k) as [[item q]|].
  - destruct Hinv as (q' & Hq & _ & _ & Hsum). rewrite Hq.
    destruct (order_qty sess !! k); simpl in *; do 2 f_equal; lia.
  - destruct Hinv as [Hs Hn]. by rewrite Hn.
Qed.

(** X13: when the order builder is quit ([q]) on a store whose
    quantities are [u32] values, and for every item the quantities
    selected for it in the session sum to at most [i32::MAX], the
    rollback gives back the store the session started with: the same
    items with the same quantities, the same order history and the same
    counters. *)
Theorem build_order_quit_restores (s0 : Store.t) (input : list string)
    (evs : list event) (s' : Store.t) :
  build_order s0 input = (evs, s') → last evs = Some EvCancelled →
  quantities_u32 s0 → (∀ item_id, selected_qty evs item_id <= i32_max) →
  s' = s0.
Proof.
  intros Hb Hlast Hu Hsum.
  pose proof Hb as Hb'. unfold build_order in Hb'.
  destruct (run _ _ _) as [evs1 sess] eqn:Hr. injection Hb' as <- _.
  pose proof (run_selected_nonneg _ _ _ _ _ Hr) as Hnn.
  destruct (build_order_reserve s0 input evs1 s' Hu Hb) as (pre & Hpre & Hq & Hc & _).
  { intros id q Hin. pose proof (selected_qty_ge evs1 id q Hnn Hin). specialize (Hsum id). lia. }
  rewrite (Hc Hlast). apply (restore_reserved s0 pre Hu Hpre).
  intros k v Hk. rewrite Hq, apply_selections_lookup, lookup_empty in Hk.
  destruct (selectedb evs1 k); [|discriminate]. injection Hk as <-. apply Hsum.
Qed.

Lemma build_order_quit_restores_witness :
  snd (build_order store_12 ["0"; "5"; "0"; "7"; "q"]%string) = store_12.
Proof.
  destruct (build_order store_12 ["0"; "5"; "0"; "7"; "q"]%string) as [evs s'] eqn:E.
  simpl. apply (build_order_quit_restores store_12 _ evs s' E).
  - vm_compute in E. injection E as <- _. reflexivity.
  - intros i it q. unfold store_12, Store.stock, Store.set_inventory; simpl.
    destruct (decide (i = 1)) as [->|Hne].
    + rewrite lookup_insert_eq. intros [= _ <-]. unfold is_u32, u32_max; lia.
    + rewrite lookup_insert_ne by congruence. rewrite lookup_empty. discriminate.
  - vm_compute in E. injection E as <- _. intros i. unfold selected_qty.
    destruct (Z.eqb 1 i); unfold i32_max; lia.
Defined.

(** Same item records (ids and [Item] values), order history and
    counters; only on-hand quantities may differ. *)
Definition same_items (s s' : Store.t) : Prop :=
  Store.orders s' = Store.orders s ∧
  Store.next_item_id s' = Store.next_item_id s ∧
  Store.next_order_id s' = Store.next_order_id s ∧
  ∀ j, fst <$> Store.inventory s' !! j = fst <$> Store.inventory s !! j.

Lemma same_items_refl s : same_items s s.
Proof. done. Qed.

Lemma same_items_trans s1 s2 s3 :
  same_items s1 s2 → same_items s2 s3 → same_items s1 s3.
Proof.
  intros (H1 & H2 & H3 & H4) (G1 & G2 & G3 & G4).
  split; [congruence|]. split; [congruence|]. split; [congruence|].
  intros j. by rewrite G4, H4.
Qed.

Lemma adjust_stock_same_items s item_id qty_change :
  same_items s (snd (Store.adjust_stock s item_id qty_change)).
Proof.
  unfold Store.adjust_stock.
  destruct (Store.inventory s !! item_id) as [[item qty]|] eqn:E; simpl; [|done].
  destruct (qty + qty_change <? 0); simpl; [done|].
  split; [done|]. split; [done|]. split; [done|].
  intros j. unfold Store.set_inventory. simpl. destruct (decide (j = item_id)) as [->|Hne].
  - by rewrite lookup_insert_eq, E.
  - by rewrite lookup_insert_ne by congruence.
Qed.

Lemma restore_same_items s oq : same_items s (restore s oq).
Proof.
  unfold restore. generalize (map_to_list oq) as l. intros l. revert s.
  induction l as [|kv l IH]; intros s; simpl; [done|].
  eapply same_items_trans; [apply adjust_stock_same_items|apply IH].
Qed.

Lemma step_same_items sess input ev sess1 rest :
  step sess input = (ev, sess1, rest) → same_items (store sess) (store sess1).
Proof.
  unfold step.
  destruct input as [|cmd rest0]; [intros [= _ <- _]; done|].
  destruct (String.eqb cmd "f"); [destruct (decide _); intros [= _ <- _]; done|].
  destruct (String.eqb cmd "q"); [intros [= _ <- _]; apply restore_same_items|].
  destruct (parse_usize cmd) as [row|]; [|intros [= _ <- _]; done].
  destruct (_ <=? row); [intros [= _ <- _]; done|].
  destruct (retry_read_u32 rest0) as [[q rest']|]; [|intros [= _ <- _]; done].
  destruct (i32_neg _) as [delta|]; [|intros [= _ <- _]; done].
  destruct (Store.adjust_stock _ _ _) as [r s1] eqn:Ea.
  pose proof (adjust_stock_same_items (store sess)
                (nth (Z.to_nat row) (Store.inventory_ids_sorted (store sess)) 0) delta) as Hs.
  rewrite Ea in Hs. simpl in Hs.
  destruct r as [v|msg]; [|intros [= _ <- _]; done].
  destruct (u32_add _ _); intros [= _ <- _]; [exact Hs|done].
Qed.

Lemma run_same_items fuel sess input evs sess' :
  run fuel sess input = (evs, sess') → same_items (store sess) (store sess').
Proof.
  revert sess input evs sess'.
  induction fuel as [|fuel IH]; intros sess input evs sess'; simpl; [intros [= _ <-]; done|].
  destruct (step sess input) as [[ev sess1] rest] eqn:Hs.
  pose proof (step_same_items _ _ _ _ _ Hs) as H1.
  destruct (terminal ev); [intros [= _ <-]; exact H1|].
  destruct (run fuel sess1 rest) as [evs1 fin] eqn:Hr. intros [= _ <-].
  exact (same_items_trans _ _ _ H1 (IH _ _ _ _ Hr)).
Qed.

(** X14: whatever is typed, the order builder leaves the store with
    the same item ids and the same [Item] records (name, cost, weight),
    the same order history and the same id counters: it can only move
    on-hand quantities. *)
Theorem build_order_keeps_items (s : Store.t) (input : list string) :
  let s' := snd (build_order s input) in
  Store.orders s' = Store.orders s ∧
  Store.next_item_id s' = Store.next_item_id s ∧
  Store.next_order_id s' = Store.next_order_id s ∧
  ∀ item_id, fst <$> Store.inventory s' !! item_id = fst <$> Store.inventory s !! item_id.
Proof.
  unfold build_order. destruct (run _ _ _) as [evs sess] eqn:Hr. simpl.
  exact (run_same_items _ _ _ _ _ Hr).
Qed.




(* ------------------------------------------------------------------ *)
(** ** The inventory table *)

Lemma char_count_app s1 s2 : char_count (s1 ++ s2) = (char_count s1 + char_count s2)%nat.
Proof. induction s1 as [|c s1 IH]; simpl; [done|]. rewrite IH. lia. Qed.

Lemma char_count_repeat_ascii c n :
  (nat_of_ascii c < 128)%nat → char_count (str_repeat c n) = n.
Proof.
  intros Hc. induction n as [|n IH]; simpl; [done|].
  unfold utf8_continuation. rewrite (proj2 (Nat.leb_gt _ _) Hc). simpl. lia.
Qed.

Lemma char_count_pad_right w s : (char_count s <= w)%nat → char_count (pad_right w s) = w.
Proof.
  intros H. unfold pad_right. rewrite char_count_app, char_count_repeat_ascii by (apply Nat.ltb_lt; reflexivity). lia.
Qed.

Lemma char_count_pad_left w s : (char_count s <= w)%nat → char_count (pad_left w s) = w.
Proof.
  intros H. unfold pad_left. rewrite char_count_app, char_count_repeat_ascii by (apply Nat.ltb_lt; reflexivity). lia.
Qed.

Lemma char_count_pad_zero w s : (char_count s <= w)%nat → char_count (pad_zero w s) = w.
Proof.
  intros H. unfold pad_zero. rewrite char_count_app, char_count_repeat_ascii by (apply Nat.ltb_lt; reflexivity). lia.
Qed.

Lemma char_count_digit n :
  (if utf8_continuation (ascii_of_nat (48 + Z.to_nat (n mod 10))) then 0 else 1)%nat = 1%nat.
Proof.
  assert (Hd : (Z.to_nat (n mod 10) < 10)%nat).
  { pose proof (Z.mod_pos_bound n 10 ltac:(lia)). lia. }
  unfold utf8_continuation. rewrite nat_ascii_embedding by lia.
  rewrite (proj2 (Nat.leb_gt _ _)) by lia. reflexivity.
Qed.

(** [fmt_digits] writes one character per decimal digit. *)
Lemma fmt_digits_count f n acc :
  (1 <= f)%nat → 0 <= n < 10 ^ Z.of_nat f →
  ∃ k, (k < f)%nat ∧ char_count (fmt_digits f n acc) = (S k + char_count acc)%nat ∧
       n < 10 ^ Z.of_nat (S k) ∧ (k = O ∨ 10 ^ Z.of_nat k <= n).
Proof.
  revert n acc. induction f as [|f IH]; intros n acc Hf Hn; [lia|].
  rewrite fmt_digits_S. cbv zeta.
  destruct (Z.ltb_spec n 10).
  - exists O. cbn [char_count]. rewrite char_count_digit.
    split; [lia|]. split; [lia|]. split; [simpl; lia|by left].
  - destruct f as [|f]; [simpl in Hn; lia|].
    assert (Hn' : 0 <= n / 10 < 10 ^ Z.of_nat (S f)).
    { split; [apply Z.div_pos; lia|]. apply Z.div_lt_upper_bound; [lia|].
      rewrite <- Z.pow_succ_r by lia. rewrite <- Nat2Z.inj_succ. exact (proj2 Hn). }
    destruct (IH (n / 10) (String (ascii_of_nat (48 + Z.to_nat (n mod 10))) acc) ltac:(lia) Hn')
      as (k & Hk & Hc & Hlt & Hge).
    exists (S k). split; [lia|]. rewrite Hc. cbn [char_count]. rewrite char_count_digit. split; [lia|].
    rewrite !Nat2Z.inj_succ, !Z.pow_succ_r by lia.
    rewrite Nat2Z.inj_succ, Z.pow_succ_r in Hlt by lia.
    split; [|right].
    + pose proof (Z.mul_div_le n 10 ltac:(lia)).
      pose proof (Z.mod_pos_bound n 10 ltac:(lia)). pose proof (Z.div_mod n 10 ltac:(lia)). lia.
    + destruct Hge as [->|Hge]; [simpl; lia|].
      pose proof (Z.div_mod n 10 ltac:(lia)). pose proof (Z.mod_pos_bound n 10 ltac:(lia)). lia.
Qed.

Lemma pow10_mono a b : (a <= b)%nat → 10 ^ Z.of_nat a <= 10 ^ Z.of_nat b.
Proof. intros H. apply Z.pow_le_mono_r; lia. Qed.

(** [fmt_uint n] has six characters exactly for six-digit [n]. *)
Lemma fmt_uint_count_6 n :
  0 <= n < 10 ^ 20 →
  (char_count (fmt_uint n) = 6%nat ↔ 10 ^ 5 <= n < 10 ^ 6).
Proof.
  intros Hn. unfold fmt_uint.
  destruct (fmt_digits_count 20 n EmptyString ltac:(lia) ltac:(simpl; lia))
    as (k & Hk & Hc & Hlt & Hge).
  rewrite Hc. cbn [char_count]. rewrite Nat.add_0_r. split.
  - intros [= ->]. destruct Hge as [|Hge]; [done|]. simpl in Hlt, Hge. lia.
  - intros Hr. destruct (Nat.lt_ge_cases k 5) as [Hs|Hs].
    + pose proof (pow10_mono (S k) 5 ltac:(lia)). simpl in *. lia.
    + destruct (Nat.lt_ge_cases 5 k) as [Hb|Hb]; [|lia].
      destruct Hge as [->|Hge]; [lia|].
      pose proof (pow10_mono 6 k ltac:(lia)). simpl in *. lia.
Qed.

Lemma fmt_uint_count_le n (w : nat) :
  (1 <= w <= 20)%nat → 0 <= n < 10 ^ Z.of_nat w → (char_count (fmt_uint n) <= w)%nat.
Proof.
  intros Hw Hn. unfold fmt_uint.
  assert (H20 : 10 ^ Z.of_nat w <= 10 ^ Z.of_nat 20) by (apply pow10_mono; lia).
  destruct (fmt_digits_count 20 n EmptyString ltac:(lia) ltac:(lia))
    as (k & Hk & Hc & Hlt & Hge).
  rewrite Hc. cbn [char_count]. rewrite Nat.add_0_r. destruct (Nat.lt_ge_cases k w) as [H|H]; [lia|].
  destruct Hge as [->|Hge]; [lia|].
  pose proof (pow10_mono w k H). lia.
Qed.

Lemma char_count_cents_minor m : 0 <= m < 100 → char_count (cents_minor_text m) = 2%nat.
Proof.
  intros Hm. apply Nat.eqb_eq.
  apply (forallb_seqZ (fun m => Nat.eqb (char_count (cents_minor_text m)) 2) 0 100 m);
    [vm_compute; reflexivity|lia].
Qed.

Lemma char_count_Cents_fmt c :
  0 <= c → char_count (Cents_fmt c) = (char_count (fmt_uint (c / 100)) + 3)%nat.
Proof.
  intros Hc. change (Cents_fmt c) with (fmt_uint (c / 100) ++ "." ++ cents_minor_text (c mod 100))%string.
  rewrite !char_count_app, char_count_cents_minor by (apply Z.mod_pos_bound; lia).
  simpl. lia.
Qed.

Lemma ids_sorted_present s id :
  In id (Store.inventory_ids_sorted s) → is_Some (Store.inventory s !! id).
Proof.
  unfold Store.inventory_ids_sorted. rewrite <- list_elem_of_In.
  rewrite (sort_by_key_perm (fun x => x)), map_fst_fmap, list_elem_of_fmap.
  intros [[i v] [-> Hiv]]. apply elem_of_map_to_list in Hiv. simpl. by exists v.
Qed.

Lemma display_rows_lookup s ids i id item qty :
  (∀ j, In j ids → is_Some (Store.inventory s !! j)) →
  ids !! i = Some id → Store.inventory s !! id = Some (item, qty) →
  fst (display_rows s ids) !! i = Some (display_row id item qty).
Proof.
  revert i. induction ids as [|j ids IH]; intros i Hall Hi Hid; [done|].
  simpl. unfold Store.inventory_get.
  destruct (Hall j ltac:(by left)) as [[item' qty'] Hj]. rewrite Hj.
  destruct (display_rows s ids) as [out ok] eqn:Er. simpl.
  destruct i as [|i]; simpl in Hi.
  - injection Hi as ->. rewrite Hid in Hj. by injection Hj as -> ->.
  - specialize (IH i ltac:(intros x Hx; apply Hall; by right) Hi Hid).
    exact IH.
Qed.

Lemma display_header_count : char_count display_header = 71%nat.
Proof. vm_compute. reflexivity. Qed.

(** X16: the "Unit Cost" column of the inventory table is not padded.
    For an item whose id has at most six digits, whose name has at most
    40 characters and whose quantity has at most five digits, line
    [3 + i] of the table is the row of the [i]-th smallest id, and the
    row is [62 + w] characters wide, where [w] is the width of the price
    text: it lines up with the 71-character header exactly when the cost
    lies in [10^7 ..= 10^8 - 1] cents, the prices of 9 characters. *)
Theorem display_price_not_padded (s : Store.t) (i : nat) (id : Z) (item : Item.t) (qty : Z) :
  Store.inventory_ids_sorted s !! i = Some id →
  Store.inventory s !! id = Some (item, qty) →
  0 <= id < 10 ^ 6 → (char_count (Item.name item) <= 40)%nat → 0 <= qty < 10 ^ 5 →
  0 <= Item.cost item <= u32_max →
  fst (display s) !! (3 + i)%nat = Some (display_row id item qty) ∧
  char_count (display_row id item qty) = (62 + char_count (Cents_fmt (Item.cost item)))%nat ∧
  (char_count (display_row id item qty) = char_count display_header ↔
   10 ^ 7 <= Item.cost item < 10 ^ 8).
Proof.
  intros Hi Hid Hidr Hname Hq Hc.
  assert (Hrow : char_count (display_row id item qty)
                 = (62 + char_count (Cents_fmt (Item.cost item)))%nat).
  { unfold display_row. rewrite !char_count_app.
    rewrite char_count_pad_zero by (apply (fmt_uint_count_le id 6); simpl; lia).
    rewrite char_count_pad_right by exact Hname.
    rewrite char_count_pad_left by (apply (fmt_uint_count_le qty 5); simpl; lia).
    simpl. lia. }
  split; [|split; [exact Hrow|]].
  - unfold display. destruct (display_rows s _) as [rows ok] eqn:Er. simpl.
    pose proof (display_rows_lookup s _ i id item qty (ids_sorted_present s) Hi Hid) as H.
    rewrite Er in H. exact H.
  - rewrite Hrow, display_header_count, char_count_Cents_fmt by lia.
    unfold u32_max in Hc.
    assert (Hd : 0 <= Item.cost item / 100 < 10 ^ 20).
    { split; [apply Z.div_pos; lia|]. apply Z.div_lt_upper_bound; lia. }
    pose proof (fmt_uint_count_6 _ Hd) as H6.
    pose proof (Z.div_mod (Item.cost item) 100 ltac:(lia)).
    pose proof (Z.mod_pos_bound (Item.cost item) 100 ltac:(lia)).
    split.
    + intros Heq. assert (Hx : char_count (fmt_uint (Item.cost item / 100)) = 6%nat) by lia.
      apply H6 in Hx. lia.
    + intros Hr. assert (Hx : 10 ^ 5 <= Item.cost item / 100 < 10 ^ 6) by lia.
      apply H6 in Hx. lia.
Qed.

Lemma display_price_not_padded_witness :
  fst (display store_12) !! 3%nat = Some (display_row 1 washer 12) ∧
  char_count (display_row 1 washer 12) = 66%nat.
Proof.
  destruct (display_price_not_padded store_12 0 1 washer 12 eq_refl eq_refl)
    as (H1 & H2 & _); try (unfold u32_max; simpl; lia).
  split; [exact H1|]. rewrite H2. reflexivity.
Defined.
